(** * ETA codec: a shallow embedding of [wrapper/eta_codec.py]

    The module obfuscates a date-time string in six stages (base64, two
    letter-to-digit substitutions, a one-byte XOR, a literal frame, base32hex)
    and undoes four of them when decoding.  Python values are modelled as
    follows:

    - [bytes] objects are lists of [Byte.byte];
    - [str] objects are lists of Unicode code points (numbers of type [N]);
      [str.encode()] and [bytes.decode()] are the strict UTF-8 codec, which
      can raise;
    - where the module hands an object on without knowing its class (what
      [base32hex] returns), the object is a [pyval] and a method the class
      lacks raises;
    - a raised exception is the [Raise] case of [result];
    - the [mapping] dictionaries are [gmap]s from code points to strings;
    - the file system says which file a path names and what each file
      holds; a function that writes returns the file system it leaves
      behind, also when it raises. *)

From Stdlib Require Import NArith ZArith List Lia Bool.
From Stdlib Require Import Strings.Byte Strings.String.
From stdpp Require Import base option list gmap strings.

Local Open Scope N_scope.

(** ** Python values *)

Abbreviation byte := Byte.byte.
Abbreviation bytes := (list Byte.byte).
Abbreviation str := (list N).

#[global] Instance byte_eq_dec : EqDecision byte := Byte.byte_eq_dec.

(** An integer in [range(256)] as a byte; [byte_of_N] is only ever applied to
    such integers (see [byte_of_N_to_N] and the bounds proved with each use). *)
Definition byte_of_N (n : N) : byte :=
  match Byte.of_N n with
  | Some b => b
  | None => Byte.x00
  end.

(** A [bytes] literal and an ASCII [str] literal. *)
Definition bytes_lit (s : string) : bytes := list_byte_of_string s.
Definition str_lit (s : string) : str := map Byte.to_N (list_byte_of_string s).

(** ** Exceptions *)

(** The exceptions the module can raise, named after the Python classes:
    [BinasciiError] is [binascii.Error] (a bad base32/base64 text),
    [InvalidEtaStructure] is the [ValueError("Invalid .eta file structure")]
    of [struct_unwrap], the two Unicode errors come from the UTF-8 codec.
    [AttributeError], [KeyError] and [TypeError] are what Python raises for
    a method the object lacks, a key the dictionary lacks and an argument of
    the wrong class.  [OSError] is what [open] raises, the class itself or
    one below it ([FileNotFoundError], [PermissionError],
    [IsADirectoryError]). *)
Inductive exn : Set :=
| BinasciiError
| InvalidEtaStructure
| UnicodeEncodeError
| UnicodeDecodeError
| AttributeError
| KeyError
| TypeError
| OSError.

(** The two error kinds of the design: a malformed encoding and a malformed
    frame. *)
Abbreviation MalformedEncodingError := BinasciiError.
Abbreviation FrameFormatError := InvalidEtaStructure.

Inductive result (A : Type) : Type :=
| Ok (a : A)
| Raise (e : exn).
Arguments Ok {A} a.
Arguments Raise {A} e.

Definition bind {A B} (r : result A) (k : A -> result B) : result B :=
  match r with
  | Ok a => k a
  | Raise e => Raise e
  end.

Notation "'let*' x ':=' r 'in' k" := (bind r (fun x => k))
  (at level 10, x name, r at level 100, k at level 200).

(** An object whose class the module does not check: [bytes] or [str]. *)
Inductive pyval : Type :=
| PyBytes (b : bytes)
| PyStr (s : str).

(** [try: r except Exception: v] *)
Definition try_except {A} (r : result A) (v : A) : A :=
  match r with
  | Ok a => a
  | Raise _ => v
  end.

(** ** [str(int)] *)

Fixpoint uint_digits (d : Decimal.uint) : str :=
  match d with
  | Decimal.Nil => []
  | Decimal.D0 d => 48 :: uint_digits d
  | Decimal.D1 d => 49 :: uint_digits d
  | Decimal.D2 d => 50 :: uint_digits d
  | Decimal.D3 d => 51 :: uint_digits d
  | Decimal.D4 d => 52 :: uint_digits d
  | Decimal.D5 d => 53 :: uint_digits d
  | Decimal.D6 d => 54 :: uint_digits d
  | Decimal.D7 d => 55 :: uint_digits d
  | Decimal.D8 d => 56 :: uint_digits d
  | Decimal.D9 d => 57 :: uint_digits d
  end.

(** The decimal rendering of a Python integer. *)
Definition py_str (z : Z) : str :=
  match Z.to_int z with
  | Decimal.Pos d => uint_digits d
  | Decimal.Neg d => 45 :: uint_digits d
  end.

(** [ord] of a one-character string. *)
Definition ord (c : N) : Z := Z.of_N c.

(** ** Helper functions of the module *)

(** [{c: f(c) for c in keys}]: later keys overwrite earlier ones. *)
Definition dict_comprehension (f : N -> str) (keys : str) : gmap N str :=
  foldl (fun m c => <[c := f c]> m) ∅ keys.

(** [''.join(mapping.get(ch, ch) for ch in text)] *)
Definition substitute (mapping : gmap N str) (text : str) : str :=
  concat (map (fun ch => default [ch] (mapping !! ch)) text).

Definition mapping_a_p : gmap N str :=
  dict_comprehension
    (fun c => py_str ((ord c - ord 97) mod 5 + 1))
    (str_lit "abcdefghijklmnop").

Definition regex_a_p_transform (text : str) : str :=
  substitute mapping_a_p text.

Definition mapping_f_x : gmap N str :=
  dict_comprehension
    (fun c => py_str ((ord c - ord 102) mod 4 + 9))
    (str_lit "fghijklmnopqrstuvwx").

Definition regex_f_x_transform (text : str) : str :=
  substitute mapping_f_x text.

(** [b ^ key] on two bytes. *)
Definition byte_xor (b key : byte) : byte :=
  byte_of_N (N.lxor (Byte.to_N b) (Byte.to_N key)).

Definition default_key : byte := Byte.x5a.

Definition xor_binary (data : bytes) (key : byte) : bytes :=
  map (fun b => byte_xor b key) data.

Definition ETA_HEADER : bytes := bytes_lit "[ETA_HEADER]".
Definition ETA_FOOTER : bytes := bytes_lit "[ETA_FOOTER]".

Definition struct_wrap (data : bytes) : bytes :=
  ETA_HEADER ++ data ++ ETA_FOOTER.

Definition startswith (data prefix : bytes) : bool :=
  bool_decide (take (length prefix) data = prefix).

Definition endswith (data suffix : bytes) : bool :=
  (length suffix <=? length data)%nat
  && bool_decide (drop (length data - length suffix) data = suffix).

(** One bound of a slice, as Python normalises it: a negative index counts
    from the end, and the outcome is clamped to [0 .. len]. *)
Definition slice_index (len : nat) (i : Z) : nat :=
  if (i <? 0)%Z then Z.to_nat (Z.max 0 (i + Z.of_nat len))
  else Nat.min (Z.to_nat i) len.

(** [data[i:j]] *)
Definition slice {A} (data : list A) (i j : Z) : list A :=
  let lo := slice_index (length data) i in
  let hi := slice_index (length data) j in
  take (hi - lo) (drop lo data).

Definition struct_unwrap (data : bytes) : result bytes :=
  if startswith data ETA_HEADER && endswith data ETA_FOOTER
  then Ok (slice data (Z.of_nat (length ETA_HEADER))
                      (- Z.of_nat (length ETA_FOOTER)))
  else Raise InvalidEtaStructure.

(** [struct_unwrap(data)] when the class of [data] is not known.  The
    annotation [data: bytes] is not enforced; the body starts with
    [data.startswith(b"[ETA_HEADER]")], and [str.startswith] raises
    [TypeError] on a [bytes] prefix, whatever the string. *)
Definition struct_unwrap_object (data : pyval) : result bytes :=
  match data with
  | PyBytes b => struct_unwrap b
  | PyStr _ => Raise TypeError
  end.


(** ** The UTF-8 codec: [str.encode()] and [bytes.decode()] *)

(** One code point as UTF-8.  A lone surrogate cannot be encoded; numbers
    from [0x110000] on are not code points and occur in no Python string. *)
Definition utf8_encode_char (c : N) : result bytes :=
  if c <? 0x80 then Ok [byte_of_N c]
  else if c <? 0x800 then
    Ok [byte_of_N (0xC0 + c / 64); byte_of_N (0x80 + c mod 64)]
  else if c <? 0x10000 then
    if (0xD800 <=? c) && (c <? 0xE000) then Raise UnicodeEncodeError
    else Ok [byte_of_N (0xE0 + c / 4096);
             byte_of_N (0x80 + (c / 64) mod 64);
             byte_of_N (0x80 + c mod 64)]
  else if c <? 0x110000 then
    Ok [byte_of_N (0xF0 + c / 262144);
        byte_of_N (0x80 + (c / 4096) mod 64);
        byte_of_N (0x80 + (c / 64) mod 64);
        byte_of_N (0x80 + c mod 64)]
  else Raise UnicodeEncodeError.

(** [s.encode()] *)
Fixpoint str_encode (s : str) : result bytes :=
  match s with
  | [] => Ok []
  | c :: s' =>
      let* b := utf8_encode_char c in
      let* bs := str_encode s' in
      Ok (b ++ bs)
  end.

Definition in_range (lo hi : N) (b : byte) : bool :=
  (lo <=? Byte.to_N b) && (Byte.to_N b <=? hi).

(** The payload bits of a continuation byte. *)
Definition cont_bits (b : byte) : N := Byte.to_N b - 0x80.

(** [b.decode()]: strict UTF-8, rejecting stray and missing continuation
    bytes, overlong forms, surrogates and values above [0x10FFFF]. *)
Fixpoint bytes_decode (b : bytes) : result str :=
  match b with
  | [] => Ok []
  | b0 :: r0 =>
      let n0 := Byte.to_N b0 in
      if n0 <? 0x80 then
        let* s := bytes_decode r0 in Ok (n0 :: s)
      else if n0 <? 0xC2 then Raise UnicodeDecodeError
      else if n0 <? 0xE0 then
        match r0 with
        | b1 :: r1 =>
            if in_range 0x80 0xBF b1 then
              let* s := bytes_decode r1 in
              Ok (((n0 - 0xC0) * 64 + cont_bits b1) :: s)
            else Raise UnicodeDecodeError
        | _ => Raise UnicodeDecodeError
        end
      else if n0 <? 0xF0 then
        match r0 with
        | b1 :: b2 :: r2 =>
            let lo := if n0 =? 0xE0 then 0xA0 else 0x80 in
            let hi := if n0 =? 0xED then 0x9F else 0xBF in
            if in_range lo hi b1 && in_range 0x80 0xBF b2 then
              let* s := bytes_decode r2 in
              Ok (((n0 - 0xE0) * 4096 + cont_bits b1 * 64 + cont_bits b2) :: s)
            else Raise UnicodeDecodeError
        | _ => Raise UnicodeDecodeError
        end
      else if n0 <? 0xF5 then
        match r0 with
        | b1 :: b2 :: b3 :: r3 =>
            let lo := if n0 =? 0xF0 then 0x90 else 0x80 in
            let hi := if n0 =? 0xF4 then 0x8F else 0xBF in
            if in_range lo hi b1 && in_range 0x80 0xBF b2
               && in_range 0x80 0xBF b3 then
              let* s := bytes_decode r3 in
              Ok (((n0 - 0xF0) * 262144 + cont_bits b1 * 4096
                   + cont_bits b2 * 64 + cont_bits b3) :: s)
            else Raise UnicodeDecodeError
        | _ => Raise UnicodeDecodeError
        end
      else Raise UnicodeDecodeError
  end.

(** ** Base64: [base64.b64encode] and [base64.b64decode(.., validate=False)]

    The [base64] module belongs to the Python library, not to the
    repository.  It is modelled as the design's Codec64, standard base-64
    with [=] padding, computed the way [binascii] computes it. *)

Definition b64_alphabet : bytes :=
  bytes_lit "ABCDEFGHIJKLMNOPQRSTUVWXYZabcdefghijklmnopqrstuvwxyz0123456789+/".

Definition PAD : byte := "="%byte.

(** The symbol of a digit and the digit of a symbol in an alphabet. *)
Definition symbol_of (alphabet : bytes) (i : N) : byte :=
  nth (N.to_nat i) alphabet Byte.x00.

Fixpoint digit_of (alphabet : bytes) (ch : byte) : option N :=
  match alphabet with
  | [] => None
  | a :: rest =>
      if Byte.eqb a ch then Some 0
      else option_map N.succ (digit_of rest ch)
  end.

(** Modelled from the spec: [base64.b64encode] is library code.  As
    [binascii.b2a_base64(s, newline=False)] does, three bytes give four
    symbols and a last group of one or two bytes is padded with [=]. *)
Fixpoint b64encode (s : bytes) : bytes :=
  let sym := symbol_of b64_alphabet in
  match s with
  | [] => []
  | [a] =>
      let x := Byte.to_N a in
      [sym (x / 4); sym (x mod 4 * 16); PAD; PAD]
  | [a; b] =>
      let x := Byte.to_N a in
      let y := Byte.to_N b in
      [sym (x / 4); sym (x mod 4 * 16 + y / 16); sym (y mod 16 * 4); PAD]
  | a :: b :: c :: rest =>
      let x := Byte.to_N a in
      let y := Byte.to_N b in
      let z := Byte.to_N c in
      sym (x / 4) :: sym (x mod 4 * 16 + y / 16)
        :: sym (y mod 16 * 4 + z / 64) :: sym (z mod 64)
        :: b64encode rest
  end.

(** Modelled from the spec: [base64.b64decode] is library code.  This is
    the scanning loop of [binascii.a2b_base64] in its default, non-strict
    mode, the one [validate=False] selects.  [quad_pos] counts the digits of the current group, [leftchar]
    holds the bits not yet written, [pads] counts the [=] seen since the last
    digit and [out] is the output so far.  A byte outside the alphabet is
    skipped; enough padding after at least two digits ends the scan and the
    rest of the input is ignored; otherwise the input must end on a group
    boundary. *)
Fixpoint a2b_base64_loop (ascii : bytes) (quad_pos leftchar pads : N)
    (out : bytes) : result bytes :=
  match ascii with
  | [] => if quad_pos =? 0 then Ok out else Raise BinasciiError
  | ch :: rest =>
      if Byte.eqb ch PAD then
        if 2 <=? quad_pos then
          if 4 <=? quad_pos + (pads + 1) then Ok out
          else a2b_base64_loop rest quad_pos leftchar (pads + 1) out
        else a2b_base64_loop rest quad_pos leftchar pads out
      else
        match digit_of b64_alphabet ch with
        | None => a2b_base64_loop rest quad_pos leftchar pads out
        | Some v =>
            if quad_pos =? 0 then
              a2b_base64_loop rest 1 v 0 out
            else if quad_pos =? 1 then
              a2b_base64_loop rest 2 (v mod 16) 0
                (out ++ [byte_of_N (leftchar * 4 + v / 16)])
            else if quad_pos =? 2 then
              a2b_base64_loop rest 3 (v mod 4) 0
                (out ++ [byte_of_N (leftchar * 16 + v / 4)])
            else
              a2b_base64_loop rest 0 0 0
                (out ++ [byte_of_N (leftchar * 64 + v)])
        end
  end.

(** [base64.b64decode(s, validate=False)] *)
Definition b64decode (s : bytes) : result bytes :=
  a2b_base64_loop s 0 0 0 [].

(** ** Base32hex: the code of [base32hex.b32encode] and [base32hex.b32decode]

    The [base32hex] package is not part of the repository.  Its code, the
    correspondence between byte buffers and symbol sequences, is modelled
    as RFC 4648 base32 with the "extended hex" alphabet, computed the way
    [base64._b32encode] and [base64._b32decode] of the Python library
    compute base32; symbols are written as their ASCII bytes.  How the
    package hands symbols over, as text, comes after it. *)

Definition b32hex_alphabet : bytes :=
  bytes_lit "0123456789ABCDEFGHIJKLMNOPQRSTUV".

(** [b32tab2[v]]: the two symbols of a ten-bit value. *)
Definition b32tab2 (v : N) : bytes :=
  [symbol_of b32hex_alphabet (v / 32); symbol_of b32hex_alphabet (v mod 32)].

(** [int.from_bytes(s)] and [n.to_bytes(len)], big endian. *)
Definition from_bytes (s : bytes) : N :=
  foldl (fun acc b => acc * 256 + Byte.to_N b) 0 s.

Fixpoint to_bytes (len : nat) (n : N) : bytes :=
  match len with
  | O => []
  | S len' => to_bytes len' (n / 256) ++ [byte_of_N (n mod 256)]
  end.

(** [[s[i:i+k] for i in range(0, len(s), k)]] *)
Fixpoint chunks_fuel {A} (fuel k : nat) (s : list A) : list (list A) :=
  match fuel with
  | O => []
  | S fuel' =>
      match s with
      | [] => []
      | _ => take k s :: chunks_fuel fuel' k (drop k s)
      end
  end.

Definition chunks {A} (k : nat) (s : list A) : list (list A) :=
  chunks_fuel (length s) k s.

(** The eight symbols of one five-byte quantum. *)
Definition b32_quantum (q : bytes) : bytes :=
  let c := from_bytes q in
  b32tab2 (N.shiftr c 30)
  ++ b32tab2 (N.land (N.shiftr c 20) 0x3ff)
  ++ b32tab2 (N.land (N.shiftr c 10) 0x3ff)
  ++ b32tab2 (N.land c 0x3ff).

(** [encoded[-k:] = b'=' * k], on an [encoded] of at least [k] symbols *)
Definition set_padding (k : nat) (encoded : bytes) : bytes :=
  take (length encoded - k) encoded ++ replicate k PAD.

(** Modelled from the spec: [base32hex.b32encode] is library code.  Five
    bytes give eight symbols; the last quantum is filled with zero bytes and
    its surplus symbols are overwritten with [=]. *)
Definition b32encode (s : bytes) : bytes :=
  let leftover := (length s mod 5)%nat in
  let s' :=
    if (leftover =? 0)%nat then s
    else s ++ replicate (5 - leftover) Byte.x00 in
  let encoded := concat (map b32_quantum (chunks 5 s')) in
  match leftover with
  | 1%nat => set_padding 6 encoded
  | 2%nat => set_padding 4 encoded
  | 3%nat => set_padding 3 encoded
  | 4%nat => set_padding 1 encoded
  | _ => encoded
  end.

(** [s.rstrip(b'=')] *)
Fixpoint rstrip_pad (s : bytes) : bytes :=
  match s with
  | [] => []
  | c :: rest =>
      match rstrip_pad rest with
      | [] => if Byte.eqb c PAD then [] else [c]
      | rest' => c :: rest'
      end
  end.

(** The inner loop over the symbols of one quantum; a symbol outside the
    alphabet is the [KeyError] turned into [binascii.Error]. *)
Fixpoint b32_acc (quanta : bytes) (acc : N) : result N :=
  match quanta with
  | [] => Ok acc
  | c :: rest =>
      match digit_of b32hex_alphabet c with
      | Some v => b32_acc rest (N.shiftl acc 5 + v)
      | None => Raise BinasciiError
      end
  end.

(** The outer loop: [decoded] grows by five bytes per quantum, and [acc]
    keeps the value of the last quantum after the loop. *)
Fixpoint b32_quanta (qs : list bytes) (decoded : bytes) (acc : N)
    : result (bytes * N) :=
  match qs with
  | [] => Ok (decoded, acc)
  | quanta :: rest =>
      let* acc' := b32_acc quanta 0 in
      b32_quanta rest (decoded ++ to_bytes 5 acc') acc'
  end.

(** Modelled from the spec: [base32hex.b32decode] is library code.  The
    length must be a multiple of eight, the padding is stripped and counted,
    every quantum gives five bytes, and the bytes that the padding stands
    for are cut off the last five. *)
Definition b32decode (s : bytes) : result bytes :=
  if negb (length s mod 8 =? 0)%nat then Raise BinasciiError
  else
    let l := length s in
    let s' := rstrip_pad s in
    let padchars := (l - length s')%nat in
    let* r := b32_quanta (chunks 8 s') [] 0 in
    let '(decoded, acc) := r in
    if negb (bool_decide (padchars ∈ [0; 1; 3; 4; 6]%nat))
    then Raise BinasciiError
    else if negb (padchars =? 0)%nat && negb (bool_decide (decoded = []))
    then
      let acc := N.shiftl acc (5 * N.of_nat padchars) in
      let last := to_bytes 5 acc in
      let leftover := ((43 - 5 * padchars) / 8)%nat in
      Ok (take (length decoded - 5) decoded ++ take leftover last)
    else Ok decoded.

(** ** Base32hex: the package as the module calls it

    The package works on text: the contract of the codec is
    [encode(bytes) -> text] and [decode(text) -> bytes]. *)

(** [base32hex.b32encode(s)]: the symbols, as a [str]. *)
Definition base32hex_b32encode (s : bytes) : pyval :=
  PyStr (map Byte.to_N (b32encode s)).

(** [base32hex.b32decode(s)] called on a [bytes] object, as line 78 calls
    it.  The package reads its argument symbol by symbol, looking each one
    up in a dictionary whose keys are one-character strings.  The elements
    of a [bytes] object are integers, not characters: the first look-up
    raises [KeyError].  The empty buffer has no element, no look-up takes
    place, and the outcome is the empty text. *)
Definition base32hex_b32decode (s : bytes) : result pyval :=
  match s with
  | [] => Ok (PyStr [])
  | _ :: _ => Raise KeyError
  end.

(** [v.decode()]: [bytes] has the method, [str] has not. *)
Definition decode_method (v : pyval) : result str :=
  match v with
  | PyBytes b => bytes_decode b
  | PyStr _ => Raise AttributeError
  end.

(** ** Main encode and decode *)

(** A [datetime] value, as far as [strftime] reads it.  The class keeps
    [year] in 1..9999, [month] in 1..12, [day] in 1..31, [hour] below 24,
    [minute] and [second] below 60. *)
Record datetime : Set := {
  year : N; month : N; day : N;
  hour : N; minute : N; second : N
}.

(** A decimal field of [strftime], zero-padded to [width] digits. *)
Definition zero_padded (width : nat) (n : N) : str :=
  let digits := py_str (Z.of_N n) in
  replicate (width - length digits) 48 ++ digits.

(** [dt.strftime("%Y-%m-%d %H:%M:%S")] as the C library of Linux formats
    it: [%Y] is the year without leading zeros ([999], not [0999]), the
    other fields have two digits. *)
Definition strftime (dt : datetime) : str :=
  py_str (Z.of_N (year dt)) ++ [45] ++ zero_padded 2 (month dt) ++ [45]
  ++ zero_padded 2 (day dt) ++ [32] ++ zero_padded 2 (hour dt) ++ [58]
  ++ zero_padded 2 (minute dt) ++ [58] ++ zero_padded 2 (second dt).

(** The argument of [encode_datetime]: [Union[str, datetime]]. *)
Inductive TimeValue : Type :=
| DateTime (dt : datetime)
| Str (s : str).

(** The string that enters the pipeline: the [isinstance] test. *)
Definition canonical (dt : TimeValue) : str :=
  match dt with
  | DateTime d => strftime d
  | Str s => s
  end.

Definition encode_datetime (dt : TimeValue) : result str :=
  let dt_str := canonical dt in
  (* Step 1: base64 *)
  let* raw := str_encode dt_str in
  let* step1 := bytes_decode (b64encode raw) in
  (* Step 2, step 3: the two substitutions *)
  let step2 := regex_a_p_transform step1 in
  let step3 := regex_f_x_transform step2 in
  (* Step 4: XOR *)
  let* raw3 := str_encode step3 in
  let step4 := xor_binary raw3 default_key in
  (* Step 5: struct wrap *)
  let step5 := struct_wrap step4 in
  (* Step 6: base32, and [.decode()] on what the package returns *)
  decode_method (base32hex_b32encode step5).

Definition decode_eta (encoded : str) : result str :=
  (* Step 1: base32 decode, of the token as bytes *)
  let* raw := str_encode encoded in
  let* step1 := base32hex_b32decode raw in
  (* Step 2: struct unwrap *)
  let* step2 := struct_unwrap_object step1 in
  (* Step 3: XOR reverse *)
  let step3 := xor_binary step2 default_key in
  (* Step 4: the substitutions are not reversed *)
  let* step4 := bytes_decode step3 in
  (* Step 5: base64 decode, with the text of step 4 as fallback *)
  let decoded :=
    try_except
      (let* raw4 := str_encode step4 in
       let* plain := b64decode raw4 in
       bytes_decode plain)
      step4 in
  Ok decoded.

(** ** The file container *)

(** The file system.  [path_file p] is the file that the path [p] names,
    and [None] when [open] cannot open [p] at all (the empty path, a
    directory, a missing parent directory, a refused permission); two paths
    may name one file.  [contents] holds the bytes of the files that exist:
    a file that a path names and that does not exist yet has none. *)
Record filesystem : Type := {
  path_file : string -> option positive;
  contents : gmap positive bytes
}.

(** An action on the file system: its outcome and the file system it leaves
    behind. *)
Definition io (A : Type) : Type := filesystem -> result A * filesystem.

Definition io_lift {A} (r : result A) : io A := fun fs => (r, fs).

Definition io_bind {A B} (m : io A) (k : A -> io B) : io B :=
  fun fs =>
    match m fs with
    | (Ok a, fs') => k a fs'
    | (Raise e, fs') => (Raise e, fs')
    end.

Notation "'do*' x ':=' m 'in' k" := (io_bind m (fun x => k))
  (at level 10, x name, m at level 100, k at level 200).

Definition LF : N := 10.
Definition CR : N := 13.
Definition BEGIN_ETA : str := str_lit "BEGIN_ETA".
Definition END_ETA : str := str_lit "END_ETA".

(** [open(path, "w", encoding="utf-8")]: the file is created or emptied,
    and [OSError] is raised when the path cannot be opened. *)
Definition open_w (path : string) : io positive :=
  fun fs =>
    match path_file fs path with
    | None => (Raise OSError, fs)
    | Some f =>
        (Ok f, {| path_file := path_file fs;
                  contents := <[f := []]> (contents fs) |})
    end.

(** [f.write(s)] on a file opened with [encoding="utf-8"]: the text is
    appended to the file as UTF-8. *)
Definition file_write (f : positive) (s : str) : io unit :=
  fun fs =>
    match str_encode s with
    | Raise e => (Raise e, fs)
    | Ok b =>
        (Ok tt, {| path_file := path_file fs;
                   contents :=
                     <[f := default [] (contents fs !! f) ++ b]>
                       (contents fs) |})
    end.

Definition write_eta_file (path : string) (dt : TimeValue) : io unit :=
  do* encoded := io_lift (encode_datetime dt) in
  do* f := open_w path in
  do* _ := file_write f (BEGIN_ETA ++ [LF]) in
  do* _ := file_write f (encoded ++ [LF]) in
  file_write f (END_ETA ++ [LF]).

(** [open(path, "r", encoding="utf-8")] and [f.read()], before the text is
    decoded: the bytes of the file, and [OSError] when the path cannot be
    opened or names no file that exists. *)
Definition open_r (path : string) (fs : filesystem) : result bytes :=
  match path_file fs path with
  | None => Raise OSError
  | Some f =>
      match contents fs !! f with
      | None => Raise OSError
      | Some content => Ok content
      end
  end.

(** Reading in text mode turns [\r\n] and [\r] into [\n]. *)
Fixpoint universal_newlines (s : str) : str :=
  match s with
  | [] => []
  | c :: rest =>
      if c =? CR then
        match rest with
        | c' :: rest' =>
            if c' =? LF then LF :: universal_newlines rest'
            else LF :: universal_newlines rest
        | [] => [LF]
        end
      else c :: universal_newlines rest
  end.

(** [str.isspace] on one character. *)
Definition isspace (c : N) : bool :=
  bool_decide (c ∈ [0x09; 0x0A; 0x0B; 0x0C; 0x0D; 0x1C; 0x1D; 0x1E; 0x1F;
                    0x20; 0x85; 0xA0; 0x1680; 0x2028; 0x2029; 0x202F;
                    0x205F; 0x3000])
  || ((0x2000 <=? c) && (c <=? 0x200A)).

Fixpoint lstrip (s : str) : str :=
  match s with
  | [] => []
  | c :: rest => if isspace c then lstrip rest else s
  end.

Fixpoint rstrip (s : str) : str :=
  match s with
  | [] => []
  | c :: rest =>
      match rstrip rest with
      | [] => if isspace c then [] else [c]
      | rest' => c :: rest'
      end
  end.

(** [s.strip()] *)
Definition strip (s : str) : str := rstrip (lstrip s).

(** The line boundaries of [str.splitlines], [\r] apart. *)
Definition is_linebreak (c : N) : bool :=
  bool_decide (c ∈ [0x0A; 0x0B; 0x0C; 0x1C; 0x1D; 0x1E; 0x85;
                    0x2028; 0x2029]).

(** [s.splitlines()], with the current line [cur] kept in reverse. *)
Fixpoint splitlines_from (cur : str) (s : str) : list str :=
  match s with
  | [] => match cur with [] => [] | _ => [rev cur] end
  | c :: rest =>
      if c =? CR then
        match rest with
        | c' :: rest' =>
            if c' =? LF then rev cur :: splitlines_from [] rest'
            else rev cur :: splitlines_from [] rest
        | [] => [rev cur]
        end
      else if is_linebreak c then rev cur :: splitlines_from [] rest
      else splitlines_from (c :: cur) rest
  end.

Definition splitlines (s : str) : list str := splitlines_from [] s.

Definition not_sentinel (line : str) : bool :=
  negb (bool_decide (line ∈ [BEGIN_ETA; END_ETA])).

Definition read_eta_file (path : string) (fs : filesystem) : result str :=
  let* content := open_r path fs in
  let* text := bytes_decode content in
  let lines := splitlines (strip (universal_newlines text)) in
  let encoded := concat (List.filter not_sentinel lines) in
  decode_eta encoded.

(** ** The substitution tables as the design describes them *)

Definition in_a_p (c : N) : bool := (97 <=? c) && (c <=? 112).
Definition in_f_x (c : N) : bool := (102 <=? c) && (c <=? 120).

(** Table A: a letter of [a..p] becomes [str(((code - 'a') mod 5) + 1)]. *)
Definition table_a (c : N) : str :=
  if in_a_p c then py_str ((Z.of_N c - 97) mod 5 + 1) else [c].

(** Table B: a letter of [f..x] becomes [str(((code - 'f') mod 4) + 9)]. *)
Definition table_b (c : N) : str :=
  if in_f_x c then py_str ((Z.of_N c - 102) mod 4 + 9) else [c].

(** ASCII text and ASCII bytes. *)
Definition is_ascii (s : str) : Prop := Forall (fun c => c < 128) s.
Definition ascii_bytes (b : bytes) : Prop :=
  Forall (fun x => Byte.to_N x < 128) b.

(** The eight base-32 digits of a forty-bit number, most significant first. *)
Definition b32_digits (c : N) : list N :=
  [c / 34359738368; c / 1073741824 mod 32; c / 33554432 mod 32;
   c / 1048576 mod 32; c / 32768 mod 32; c / 1024 mod 32;
   c / 32 mod 32; c mod 32].

(** [base64._b32decode] after its length test, started with the loop
    variables [decoded] and [acc] already set. *)
Definition b32decode_from (s decoded : bytes) (acc : N) : result bytes :=
  if negb (length s mod 8 =? 0)%nat then Raise BinasciiError
  else
    let l := length s in
    let s' := rstrip_pad s in
    let padchars := (l - length s')%nat in
    let* r := b32_quanta (chunks 8 s') decoded acc in
    let '(decoded, acc) := r in
    if negb (bool_decide (padchars ∈ [0; 1; 3; 4; 6]%nat))
    then Raise BinasciiError
    else if negb (padchars =? 0)%nat && negb (bool_decide (decoded = []))
    then
      let acc := N.shiftl acc (5 * N.of_nat padchars) in
      let last := to_bytes 5 acc in
      let leftover := ((43 - 5 * padchars) / 8)%nat in
      Ok (take (length decoded - 5) decoded ++ take leftover last)
    else Ok decoded.

(** Base-32 digits. *)
Definition b32_digits_ok (ds : list N) : Prop := Forall (fun d => d < 32) ds.

(** The number of padding characters after a last group of [leftover]
    bytes. *)
Definition b32_padding (leftover : nat) : nat :=
  match leftover with
  | 1 => 6
  | 2 => 4
  | 3 => 3
  | 4 => 1
  | _ => 0
  end%nat.

(** The text after the two substitution stages of [encode_datetime], from
    the UTF-8 bytes of the input string. *)
Definition substituted_text (raw : bytes) : str :=
  regex_f_x_transform (regex_a_p_transform (map Byte.to_N (b64encode raw))).

(** A Unicode scalar value: a code point that is not a surrogate.  These are
    the code points that have a UTF-8 encoding. *)
Definition scalar_value (c : N) : Prop :=
  c < 0xD800 \/ (0xE000 <= c /\ c < 0x110000).

(** ** Notions used to state further properties of the module *)

(** The letters [q..x]: the part of table B that table A does not cover. *)
Definition in_q_x (c : N) : bool := (113 <=? c) && (c <=? 120).

(** Both substitution passes in one table. *)
Definition table_ab (c : N) : str :=
  if in_a_p c then table_a c
  else if in_q_x c then table_b c
  else [c].

(** A visible ASCII character: printable and not a space. *)
Definition visible (c : N) : bool := (33 <=? c) && (c <=? 126).

(** The text of a file that holds the given lines, each ended by a line
    feed. *)
Definition file_text (lines : list str) : str :=
  concat (map (fun l => l ++ [LF]) lines).

(** The lines joined by line feeds, with none after the last. *)
Fixpoint join_lines (lines : list str) : str :=
  match lines with
  | [] => []
  | [l] => l
  | l :: rest => l ++ LF :: join_lines rest
  end.

(** A line of a file: not empty and made of visible characters. *)
Definition is_line (l : str) : Prop :=
  l <> [] /\ Forall (fun c => visible c = true) l.

(** * Proofs *)

(** ** Bytes and numbers *)

Lemma byte_of_N_to_N (b : byte) : byte_of_N (Byte.to_N b) = b.
Proof. unfold byte_of_N. now rewrite Byte.of_to_N. Qed.

Lemma to_N_byte_of_N (n : N) : n < 256 -> Byte.to_N (byte_of_N n) = n.
Proof.
  intros Hn. unfold byte_of_N.
  destruct (Byte.of_N n) as [b|] eqn:E.
  - now apply Byte.to_of_N.
  - apply Byte.of_N_None_iff in E. lia.
Qed.

Lemma to_N_lt (b : byte) : Byte.to_N b < 256.
Proof. pose proof (Byte.to_N_bounded b). lia. Qed.

Lemma byte_eqb_eq (a b : byte) : Byte.eqb a b = bool_decide (a = b).
Proof.
  destruct (Byte.eqb a b) eqn:E.
  - apply Byte.byte_dec_bl in E. subst. now rewrite bool_decide_eq_true_2.
  - apply Byte.eqb_false in E. now rewrite bool_decide_eq_false_2.
Qed.

Lemma to_N_inj (a b : byte) : Byte.to_N a = Byte.to_N b -> a = b.
Proof.
  intros H. rewrite <- (byte_of_N_to_N a), <- (byte_of_N_to_N b). now rewrite H.
Qed.

(** A property of the numbers below a bound, checked number by number. *)
Lemma forall_below (P : N -> bool) (n : nat) :
  forallb P (map N.of_nat (seq 0 n)) = true ->
  forall i, i < N.of_nat n -> P i = true.
Proof.
  intros H i Hi. rewrite forallb_forall in H. apply H.
  apply in_map_iff. exists (N.to_nat i). split; [lia|].
  apply in_seq. lia.
Qed.

(** A property of the elements of a list, checked by a boolean test. *)
Lemma Forall_checked {A} (P : A -> Prop) (f : A -> bool) (l : list A) :
  (forall x, f x = true -> P x) -> forallb f l = true -> Forall P l.
Proof.
  intros Hf Hl. apply Forall_forall. intros x Hx%list_elem_of_In.
  rewrite forallb_forall in Hl. auto.
Qed.

(** ** The XOR mask *)

Lemma byte_xor_involutive (b key : byte) : byte_xor (byte_xor b key) key = b.
Proof.
  unfold byte_xor.
  assert (Hlog : forall n, n < 256 -> n = 0 \/ N.log2 n < 8).
  { intros n Hn. destruct n as [|p]; [now left|right].
    apply (N.log2_lt_pow2 (N.pos p) 8); [lia|exact Hn]. }
  assert (Hlt : N.lxor (Byte.to_N b) (Byte.to_N key) < 256).
  { destruct (N.lxor (Byte.to_N b) (Byte.to_N key)) as [|p] eqn:E; [lia|].
    apply (N.log2_lt_pow2 (N.pos p) 8); [lia|].
    rewrite <- E.
    eapply N.le_lt_trans; [apply N.log2_lxor|].
    destruct (Hlog _ (to_N_lt b)) as [Hb|Hb], (Hlog _ (to_N_lt key)) as [Hk|Hk];
      try rewrite Hb; try rewrite Hk; simpl N.log2; lia. }
  rewrite to_N_byte_of_N by exact Hlt.
  rewrite N.lxor_assoc, N.lxor_nilpotent, N.lxor_0_r.
  apply byte_of_N_to_N.
Qed.

Lemma xor_binary_involutive (data : bytes) (key : byte) :
  xor_binary (xor_binary data key) key = data.
Proof.
  unfold xor_binary. rewrite map_map.
  induction data as [|b data IH]; simpl; [reflexivity|].
  now rewrite byte_xor_involutive, IH.
Qed.

(** ** The substitution cipher *)

Lemma foldl_insert_lookup (f : N -> str) (keys : str) (m : gmap N str) (c : N) :
  foldl (fun m c => <[c := f c]> m) m keys !! c
  = if bool_decide (c ∈ keys) then Some (f c) else m !! c.
Proof.
  revert m. induction keys as [|k keys IH]; intros m; cbn [foldl].
  - rewrite bool_decide_eq_false_2; [reflexivity|]. apply not_elem_of_nil.
  - rewrite IH. destruct (decide (c ∈ keys)) as [Hin|Hin].
    + rewrite (bool_decide_eq_true_2 _ Hin).
      rewrite bool_decide_eq_true_2; [reflexivity|].
      apply elem_of_cons. now right.
    + rewrite (bool_decide_eq_false_2 _ Hin).
      destruct (decide (c = k)) as [->|Hne].
      * rewrite lookup_insert_eq, bool_decide_eq_true_2;
          [reflexivity|apply elem_of_cons; now left].
      * rewrite lookup_insert_ne by congruence.
        rewrite bool_decide_eq_false_2; [reflexivity|].
        rewrite elem_of_cons. tauto.
Qed.

Lemma dict_comprehension_lookup (f : N -> str) (keys : str) (c : N) :
  dict_comprehension f keys !! c
  = if bool_decide (c ∈ keys) then Some (f c) else None.
Proof.
  unfold dict_comprehension. rewrite foldl_insert_lookup.
  now rewrite lookup_empty.
Qed.

(** Membership in a list of ASCII letters against a test [P] that excludes
    every code point from 128 on: checked on the 128 ASCII codes. *)
Lemma elem_of_ascii_keys (keys : str) (P : N -> bool) :
  forallb (fun i => Bool.eqb (bool_decide (i ∈ keys)) (P i))
          (map N.of_nat (seq 0 128)) = true ->
  forallb (fun k => k <? 128) keys = true ->
  (forall c, 128 <= c -> P c = false) ->
  forall c, bool_decide (c ∈ keys) = P c.
Proof.
  intros Hlow Hkeys Hhigh c.
  destruct (N.ltb_spec c 128) as [Hc|Hc].
  - apply (forall_below _ 128 Hlow) in Hc. now apply Bool.eqb_prop in Hc.
  - rewrite (Hhigh c Hc). apply bool_decide_eq_false_2. intros Hin.
    rewrite forallb_forall in Hkeys.
    apply list_elem_of_In, Hkeys, N.ltb_lt in Hin. lia.
Qed.

Lemma mapping_a_p_lookup (c : N) :
  mapping_a_p !! c
  = if in_a_p c then Some (py_str ((Z.of_N c - 97) mod 5 + 1)) else None.
Proof.
  unfold mapping_a_p. rewrite dict_comprehension_lookup.
  rewrite (elem_of_ascii_keys _ in_a_p); [reflexivity|now vm_compute..|].
  intros c' Hc. unfold in_a_p. apply andb_false_iff. right. apply N.leb_gt. lia.
Qed.

Lemma mapping_f_x_lookup (c : N) :
  mapping_f_x !! c
  = if in_f_x c then Some (py_str ((Z.of_N c - 102) mod 4 + 9)) else None.
Proof.
  unfold mapping_f_x. rewrite dict_comprehension_lookup.
  rewrite (elem_of_ascii_keys _ in_f_x); [reflexivity|now vm_compute..|].
  intros c' Hc. unfold in_f_x. apply andb_false_iff. right. apply N.leb_gt. lia.
Qed.

Lemma substitute_flat_map (m : gmap N str) (f : N -> str) (text : str) :
  (forall c, default [c] (m !! c) = f c) ->
  substitute m text = flat_map f text.
Proof.
  intros Hf. unfold substitute.
  induction text as [|c text IH]; simpl; [reflexivity|].
  now rewrite Hf, IH.
Qed.

Lemma regex_a_p_transform_table (text : str) :
  regex_a_p_transform text = flat_map table_a text.
Proof.
  apply substitute_flat_map. intros c.
  rewrite mapping_a_p_lookup. unfold table_a. now destruct (in_a_p c).
Qed.

Lemma regex_f_x_transform_table (text : str) :
  regex_f_x_transform text = flat_map table_b text.
Proof.
  apply substitute_flat_map. intros c.
  rewrite mapping_f_x_lookup. unfold table_b. now destruct (in_f_x c).
Qed.

(** The images of table A are the single digits [1] to [5]. *)
Lemma table_a_digit (c : N) :
  table_a c = if in_a_p c then [49 + (c - 97) mod 5] else [c].
Proof.
  unfold table_a. destruct (in_a_p c) eqn:E; [|reflexivity].
  assert (Hc : c < N.of_nat 128).
  { unfold in_a_p in E. apply andb_true_iff in E as [_ E].
    apply N.leb_le in E. lia. }
  revert E.
  enough (H : (if in_a_p c
               then bool_decide (py_str ((Z.of_N c - 97) mod 5 + 1)
                                 = [49 + (c - 97) mod 5])
               else true) = true).
  { intros E. rewrite E in H. now apply bool_decide_eq_true in H. }
  revert c Hc. apply forall_below. now vm_compute.
Qed.

(** The images of table B are [9], [10], [11] and [12]. *)
Lemma table_b_digits (c : N) :
  if in_f_x c
  then table_b c ∈ [str_lit "9"; str_lit "10"; str_lit "11"; str_lit "12"]
  else table_b c = [c].
Proof.
  unfold table_b. destruct (in_f_x c) eqn:E; [|reflexivity].
  assert (Hc : c < N.of_nat 128).
  { unfold in_f_x in E. apply andb_true_iff in E as [_ E].
    apply N.leb_le in E. lia. }
  revert E.
  enough (H : (if in_f_x c
               then bool_decide
                      (py_str ((Z.of_N c - 102) mod 4 + 9)
                       ∈ [str_lit "9"; str_lit "10"; str_lit "11";
                          str_lit "12"])
               else true) = true).
  { intros E. rewrite E in H. now apply bool_decide_eq_true in H. }
  revert c Hc. apply forall_below. now vm_compute.
Qed.

(** C6: the pass with table A rewrites each letter [c] of [a..p] to the one
    digit [str(((ord(c) - ord('a')) mod 5) + 1)] and the pass with table B
    rewrites each letter of [f..x] to the decimal rendering of
    [((ord(c) - ord('f')) mod 4) + 9], one of "9", "10", "11", "12"; both
    leave every other character as it is. *)
Theorem substitution_tables (text : str) :
  regex_a_p_transform text = flat_map table_a text
  /\ regex_f_x_transform text = flat_map table_b text
  /\ Forall (fun c => length (table_a c) = 1%nat
                      /\ if in_a_p c
                         then table_a c = py_str ((ord c - ord 97) mod 5 + 1)
                              /\ table_a c = [49 + (c - 97) mod 5]
                         else table_a c = [c]) text
  /\ Forall (fun c => if in_f_x c
                      then table_b c = py_str ((ord c - ord 102) mod 4 + 9)
                           /\ table_b c ∈ [str_lit "9"; str_lit "10";
                                           str_lit "11"; str_lit "12"]
                      else table_b c = [c]) text.
Proof.
  split; [apply regex_a_p_transform_table|].
  split; [apply regex_f_x_transform_table|].
  split; apply Forall_forall; intros c _.
  - split.
    + rewrite table_a_digit. now destruct (in_a_p c).
    + pose proof (table_a_digit c) as Hd. unfold table_a in *.
      destruct (in_a_p c); auto.
  - pose proof (table_b_digits c) as Hd. unfold table_b in *.
    destruct (in_f_x c); auto.
Qed.

(** ** The frame codec *)

Lemma startswith_prefix (data prefix : bytes) :
  startswith data prefix = true <-> exists rest, data = prefix ++ rest.
Proof.
  unfold startswith. rewrite bool_decide_eq_true. split.
  - intros H. exists (drop (length prefix) data).
    rewrite <- H at 1. symmetry. apply take_drop.
  - intros [rest ->]. apply take_app_length.
Qed.

Lemma endswith_suffix (data suffix : bytes) :
  endswith data suffix = true <-> exists front, data = front ++ suffix.
Proof.
  unfold endswith. rewrite andb_true_iff, Nat.leb_le, bool_decide_eq_true.
  split.
  - intros [_ H]. exists (take (length data - length suffix) data).
    pose proof (take_drop (length data - length suffix) data) as E.
    rewrite H in E. now symmetry.
  - intros [front ->]. rewrite length_app. split; [lia|].
    replace (length front + length suffix - length suffix)%nat
      with (length front) by lia.
    apply drop_app_length.
Qed.

Lemma slice_interior (data : bytes) :
  slice (ETA_HEADER ++ data ++ ETA_FOOTER)
        (Z.of_nat (length ETA_HEADER)) (- Z.of_nat (length ETA_FOOTER))
  = data.
Proof.
  unfold slice, slice_index. rewrite !length_app.
  change (length ETA_HEADER) with 12%nat.
  change (length ETA_FOOTER) with 12%nat.
  change (Z.of_nat 12 <? 0)%Z with false.
  change (- Z.of_nat 12 <? 0)%Z with true. cbv iota.
  replace (Nat.min (Z.to_nat (Z.of_nat 12)) (12 + (length data + 12)))
    with (length ETA_HEADER) by (change (length ETA_HEADER) with 12%nat; lia).
  rewrite drop_app_length.
  replace (Z.to_nat (Z.max 0 (- Z.of_nat 12
             + Z.of_nat (12 + (length data + 12)))) - length ETA_HEADER)%nat
    with (length data) by (change (length ETA_HEADER) with 12%nat; lia).
  apply take_app_length.
Qed.

Lemma struct_unwrap_wrap (data : bytes) :
  struct_unwrap (struct_wrap data) = Ok data.
Proof.
  unfold struct_unwrap, struct_wrap.
  assert (Hs : startswith (ETA_HEADER ++ data ++ ETA_FOOTER) ETA_HEADER = true)
    by (apply startswith_prefix; eauto).
  assert (He : endswith (ETA_HEADER ++ data ++ ETA_FOOTER) ETA_FOOTER = true).
  { apply endswith_suffix. exists (ETA_HEADER ++ data). now rewrite <- app_assoc. }
  rewrite Hs, He. simpl andb. cbv iota. now rewrite slice_interior.
Qed.

(** The markers cannot overlap: a buffer that starts with the header and ends
    with the footer holds the header, a payload and the footer. *)
Lemma markers_disjoint (rest front : bytes) :
  ETA_HEADER ++ rest = front ++ ETA_FOOTER ->
  exists payload, rest = payload ++ ETA_FOOTER.
Proof.
  intros H.
  destruct (Nat.le_gt_cases (length ETA_FOOTER) (length rest)) as [Hlen|Hlen].
  - exists (take (length rest - length ETA_FOOTER) rest).
    assert (Hd : drop (length front) (ETA_HEADER ++ rest) = ETA_FOOTER)
      by (rewrite H; apply drop_app_length).
    assert (Hf : length front = (length ETA_HEADER
                                 + (length rest - length ETA_FOOTER))%nat).
    { apply (f_equal length) in H. rewrite !length_app in H. lia. }
    rewrite Hf, drop_app_add' in Hd by reflexivity.
    pose proof (take_drop (length rest - length ETA_FOOTER) rest) as E.
    rewrite Hd in E. now symmetry.
  - exfalso. change (length ETA_FOOTER) with 12%nat in Hlen.
    assert (Hd : drop (length rest) (ETA_HEADER ++ rest) = ETA_FOOTER).
    { assert (Hf : length front = length rest).
      { apply (f_equal length) in H. rewrite !length_app in H.
        change (length ETA_HEADER) with 12%nat in H.
        change (length ETA_FOOTER) with 12%nat in H. lia. }
      rewrite H, <- Hf. apply drop_app_length. }
    clear H.
    do 12 (destruct rest as [|? rest];
           [vm_compute in Hd; discriminate Hd|]).
    simpl in Hlen. lia.
Qed.

Lemma struct_unwrap_Ok (data payload : bytes) :
  struct_unwrap data = Ok payload
  <-> data = ETA_HEADER ++ payload ++ ETA_FOOTER.
Proof.
  split.
  - unfold struct_unwrap.
    destruct (startswith data ETA_HEADER) eqn:Hs; [|discriminate].
    destruct (endswith data ETA_FOOTER) eqn:He; [|discriminate].
    apply startswith_prefix in Hs as [rest ->].
    apply endswith_suffix in He as [front He].
    apply markers_disjoint in He as [p ->].
    simpl andb. cbv iota. rewrite slice_interior. now intros [= ->].
  - intros ->. apply struct_unwrap_wrap.
Qed.

Lemma struct_unwrap_Raise (data : bytes) (e : exn) :
  struct_unwrap data = Raise e ->
  e = FrameFormatError
  /\ (startswith data ETA_HEADER = false \/ endswith data ETA_FOOTER = false).
Proof.
  unfold struct_unwrap.
  destruct (startswith data ETA_HEADER); [|intros [= <-]; auto].
  destruct (endswith data ETA_FOOTER); [discriminate|intros [= <-]; auto].
Qed.

(** C5: [struct_unwrap] gives back the interior payload exactly when the
    buffer starts with the header and ends with the footer, so it undoes
    [struct_wrap] on every buffer; a buffer that lacks either marker raises
    the frame error, and nothing else does. *)
Theorem frame_codec_unwrap (data payload : bytes) :
  struct_unwrap (struct_wrap data) = Ok data
  /\ (struct_unwrap data = Ok payload
      <-> data = ETA_HEADER ++ payload ++ ETA_FOOTER)
  /\ ((exists interior, struct_unwrap data = Ok interior)
      <-> (exists rest, data = ETA_HEADER ++ rest)
          /\ (exists front, data = front ++ ETA_FOOTER))
  /\ (struct_unwrap data = Raise FrameFormatError
      <-> ~ (exists rest, data = ETA_HEADER ++ rest)
          \/ ~ (exists front, data = front ++ ETA_FOOTER)).
Proof.
  split; [apply struct_unwrap_wrap|].
  split; [apply struct_unwrap_Ok|].
  rewrite <- startswith_prefix, <- endswith_suffix.
  unfold struct_unwrap.
  destruct (startswith data ETA_HEADER), (endswith data ETA_FOOTER);
    simpl andb; cbv iota; split; split;
    try (intros [? ?]); try (intros [? | ?]); try intros ?;
    try discriminate; try congruence; eauto.
Qed.

(** ** The UTF-8 codec *)

Lemma bind_Ok {A B} (r : result A) (k : A -> result B) (b : B) :
  bind r k = Ok b <-> exists a, r = Ok a /\ k a = Ok b.
Proof.
  destruct r as [a|e]; simpl; split.
  - eauto.
  - now intros [a' [[= <-] H]].
  - discriminate.
  - now intros [a' [[=] _]].
Qed.

(** Linear arithmetic with division and remainder by constants. *)
Ltac dlia := zify; Z.to_euclidean_division_equations; lia.

(** Decide the comparisons of the goal, after splitting on its equality
    tests. *)
Ltac decide_ltb :=
  repeat match goal with
         | |- context [?a =? ?b] => destruct (N.eqb_spec a b)
         end;
  repeat match goal with
         | |- context [?a <? ?b] =>
             first [ replace (a <? b) with true
                       by (symmetry; apply N.ltb_lt; dlia)
                   | replace (a <? b) with false
                       by (symmetry; apply N.ltb_ge; dlia) ]
         | |- context [?a <=? ?b] =>
             first [ replace (a <=? b) with true
                       by (symmetry; apply N.leb_le; dlia)
                   | replace (a <=? b) with false
                       by (symmetry; apply N.leb_gt; dlia) ]
         end.

(** Decide the comparison at the head of the goal. *)
Ltac head_ltb :=
  repeat match goal with
         | |- (if ?a <? ?b then _ else _) = _ =>
             first [ replace (a <? b) with true
                       by (symmetry; apply N.ltb_lt; dlia)
                   | replace (a <? b) with false
                       by (symmetry; apply N.ltb_ge; dlia) ];
             cbv iota
         end.

Lemma bytes_decode_encode_char (c : N) (b rest : bytes) :
  utf8_encode_char c = Ok b ->
  bytes_decode (b ++ rest) = let* s := bytes_decode rest in Ok (c :: s).
Proof.
  unfold utf8_encode_char.
  destruct (N.ltb_spec c 0x80) as [H1|H1].
  { intros [= <-]. cbn [app bytes_decode].
    rewrite to_N_byte_of_N by dlia. head_ltb; decide_ltb. reflexivity. }
  destruct (N.ltb_spec c 0x800) as [H2|H2].
  { intros [= <-]. cbn [app bytes_decode]. unfold in_range, cont_bits.
    rewrite !to_N_byte_of_N by dlia. head_ltb; decide_ltb. cbn [andb].
    destruct (bytes_decode rest); cbn [bind]; [|reflexivity].
    do 2 f_equal. dlia. }
  destruct (N.ltb_spec c 0x10000) as [H3|H3].
  { destruct (N.leb_spec 0xD800 c) as [H4|H4];
      [destruct (N.ltb_spec c 0xE000) as [H5|H5]|]; cbn [andb];
      try discriminate; intros [= <-]; cbn [app bytes_decode];
      unfold in_range, cont_bits; rewrite !to_N_byte_of_N by dlia;
      head_ltb; decide_ltb; cbn [andb];
      (destruct (bytes_decode rest); cbn [bind]; [|reflexivity]);
      do 2 f_equal; dlia. }
  destruct (N.ltb_spec c 0x110000) as [H4|H4]; [|discriminate].
  intros [= <-]. cbn [app bytes_decode]. unfold in_range, cont_bits.
  rewrite !to_N_byte_of_N by dlia. head_ltb; decide_ltb; cbn [andb];
    (destruct (bytes_decode rest); cbn [bind]; [|reflexivity]);
    do 2 f_equal; dlia.
Qed.

(** Decoding undoes encoding on every string that can be encoded. *)
Lemma bytes_decode_str_encode (s : str) (b : bytes) :
  str_encode s = Ok b -> bytes_decode b = Ok s.
Proof.
  revert b. induction s as [|c s IH]; intros b; cbn [str_encode].
  - now intros [= <-].
  - intros H. apply bind_Ok in H as [bc [Hc H]].
    apply bind_Ok in H as [bs [Hs [= <-]]].
    rewrite (bytes_decode_encode_char _ _ _ Hc), (IH _ Hs). reflexivity.
Qed.

Lemma str_encode_ascii (s : str) :
  is_ascii s -> str_encode s = Ok (map byte_of_N s).
Proof.
  induction 1 as [|c s Hc _ IH]; cbn [str_encode map]; [reflexivity|].
  rewrite IH. unfold utf8_encode_char.
  replace (c <? 0x80) with true by (symmetry; apply N.ltb_lt; lia).
  reflexivity.
Qed.

Lemma bytes_decode_ascii (b : bytes) :
  ascii_bytes b -> bytes_decode b = Ok (map Byte.to_N b).
Proof.
  induction 1 as [|x b Hx _ IH]; cbn [bytes_decode map]; [reflexivity|].
  rewrite IH.
  replace (Byte.to_N x <? 0x80) with true by (symmetry; apply N.ltb_lt; lia).
  reflexivity.
Qed.

Lemma is_ascii_to_N (b : bytes) : ascii_bytes b -> is_ascii (map Byte.to_N b).
Proof. unfold is_ascii, ascii_bytes. rewrite Forall_map. auto. Qed.

Lemma ascii_bytes_of_N (s : str) : is_ascii s -> ascii_bytes (map byte_of_N s).
Proof.
  unfold is_ascii, ascii_bytes. rewrite Forall_map.
  intros H. eapply Forall_impl; [exact H|].
  intros c Hc. cbv beta in Hc. cbv [compose]. rewrite to_N_byte_of_N; lia.
Qed.

Lemma map_byte_of_N_to_N (b : bytes) : map byte_of_N (map Byte.to_N b) = b.
Proof.
  rewrite map_map. induction b as [|x b IH]; simpl; [reflexivity|].
  now rewrite byte_of_N_to_N, IH.
Qed.

(** ** Base64 *)

Lemma list_ind3 {A} (P : list A -> Prop) :
  P [] -> (forall a, P [a]) -> (forall a b, P [a; b]) ->
  (forall a b c l, P l -> P (a :: b :: c :: l)) ->
  forall l, P l.
Proof.
  intros H0 H1 H2 H3.
  fix IH 1.
  intros [|a [|b [|c l]]]; [apply H0|apply H1|apply H2|apply H3, IH].
Qed.

Lemma b64_digit_of_symbol (i : N) :
  i < 64 -> digit_of b64_alphabet (symbol_of b64_alphabet i) = Some i.
Proof.
  intros Hi.
  enough (H : bool_decide (digit_of b64_alphabet (symbol_of b64_alphabet i)
                           = Some i) = true)
    by now apply bool_decide_eq_true in H.
  revert i Hi. apply (forall_below _ 64). now vm_compute.
Qed.

Lemma b64_symbol_not_pad (i : N) :
  i < 64 -> Byte.eqb (symbol_of b64_alphabet i) PAD = false.
Proof.
  intros Hi.
  enough (H : negb (Byte.eqb (symbol_of b64_alphabet i) PAD) = true)
    by now apply negb_true_iff in H.
  revert i Hi. apply (forall_below _ 64). now vm_compute.
Qed.

(** One step of the scan on a symbol of the alphabet. *)
Lemma a2b_base64_loop_symbol (v : N) (rest : bytes) (quad_pos leftchar pads : N)
    (out : bytes) :
  v < 64 ->
  a2b_base64_loop (symbol_of b64_alphabet v :: rest) quad_pos leftchar pads out
  = if quad_pos =? 0 then a2b_base64_loop rest 1 v 0 out
    else if quad_pos =? 1 then
      a2b_base64_loop rest 2 (v mod 16) 0
        (out ++ [byte_of_N (leftchar * 4 + v / 16)])
    else if quad_pos =? 2 then
      a2b_base64_loop rest 3 (v mod 4) 0
        (out ++ [byte_of_N (leftchar * 16 + v / 4)])
    else a2b_base64_loop rest 0 0 0 (out ++ [byte_of_N (leftchar * 64 + v)]).
Proof.
  intros Hv. cbn [a2b_base64_loop].
  now rewrite b64_symbol_not_pad, b64_digit_of_symbol.
Qed.

Lemma byte_of_N_eq (n : N) (b : byte) : n = Byte.to_N b -> byte_of_N n = b.
Proof. intros ->. apply byte_of_N_to_N. Qed.

Lemma a2b_base64_loop_encode (s out : bytes) :
  a2b_base64_loop (b64encode s) 0 0 0 out = Ok (out ++ s).
Proof.
  revert out. induction s as [|a|a b|a b c s IH] using list_ind3; intros out.
  - cbn. now rewrite app_nil_r.
  - pose proof (to_N_lt a). cbn [b64encode].
    rewrite !a2b_base64_loop_symbol by dlia. cbn.
    do 2 f_equal. f_equal. apply byte_of_N_eq. dlia.
  - pose proof (to_N_lt a). pose proof (to_N_lt b). cbn [b64encode].
    rewrite !a2b_base64_loop_symbol by dlia. cbn.
    rewrite <- app_assoc. cbn [app].
    do 2 f_equal. f_equal; [|f_equal]; apply byte_of_N_eq; dlia.
  - pose proof (to_N_lt a). pose proof (to_N_lt b). pose proof (to_N_lt c).
    cbn [b64encode].
    rewrite !a2b_base64_loop_symbol by dlia.
    cbn [N.eqb Pos.eqb]. rewrite IH.
    rewrite <- !app_assoc. cbn [app].
    do 2 f_equal. f_equal; [|f_equal; [|f_equal]]; apply byte_of_N_eq; dlia.
Qed.

(** Base64 decoding undoes base64 encoding on every buffer. *)
Lemma b64decode_b64encode (s : bytes) : b64decode (b64encode s) = Ok s.
Proof. unfold b64decode. now rewrite a2b_base64_loop_encode. Qed.

(** ** Base32hex *)

Lemma list_ind5 {A} (P : list A -> Prop) :
  P [] -> (forall a, P [a]) -> (forall a b, P [a; b]) ->
  (forall a b c, P [a; b; c]) -> (forall a b c d, P [a; b; c; d]) ->
  (forall a b c d e l, P l -> P (a :: b :: c :: d :: e :: l)) ->
  forall l, P l.
Proof.
  intros H0 H1 H2 H3 H4 H5.
  fix IH 1.
  intros [|a [|b [|c [|d [|e l]]]]];
    [apply H0|apply H1|apply H2|apply H3|apply H4|apply H5, IH].
Qed.

Lemma from_bytes_snoc (q : bytes) (b : byte) :
  from_bytes (q ++ [b]) = from_bytes q * 256 + Byte.to_N b.
Proof. unfold from_bytes. now rewrite foldl_app. Qed.

Lemma to_bytes_from_bytes (q : bytes) :
  to_bytes (length q) (from_bytes q) = q.
Proof.
  induction q as [|b q IH] using rev_ind; [reflexivity|].
  rewrite length_app, Nat.add_comm, from_bytes_snoc. cbn [length plus to_bytes].
  pose proof (to_N_lt b).
  replace ((from_bytes q * 256 + Byte.to_N b) / 256) with (from_bytes q)
    by dlia.
  replace ((from_bytes q * 256 + Byte.to_N b) mod 256) with (Byte.to_N b)
    by dlia.
  now rewrite IH, byte_of_N_to_N.
Qed.

Lemma length_to_bytes (len : nat) (n : N) : length (to_bytes len n) = len.
Proof.
  revert n. induction len as [|len IH]; intros n; cbn [to_bytes];
    [reflexivity|].
  rewrite length_app, IH. simpl. lia.
Qed.

Lemma chunks_fuel_enough {A} (k f1 f2 : nat) (s : list A) :
  (length s <= f1)%nat -> (length s <= f2)%nat ->
  chunks_fuel f1 (S k) s = chunks_fuel f2 (S k) s.
Proof.
  revert f2 s. induction f1 as [|f1 IH]; intros [|f2] [|a s] H1 H2;
    simpl in H1, H2; try lia; try reflexivity.
  cbn [chunks_fuel]. f_equal. apply IH; rewrite length_drop; simpl; lia.
Qed.

Lemma chunks_nil {A} (k : nat) : chunks k (@nil A) = [].
Proof. reflexivity. Qed.

Lemma chunks_app {A} (k : nat) (x y : list A) :
  length x = S k -> chunks (S k) (x ++ y) = x :: chunks (S k) y.
Proof.
  intros Hx.
  assert (Ht : take (S k) (x ++ y) = x) by (rewrite <- Hx; apply take_app_length).
  assert (Hd : drop (S k) (x ++ y) = y) by (rewrite <- Hx; apply drop_app_length).
  unfold chunks. rewrite length_app, Hx. cbn [plus chunks_fuel].
  rewrite Ht, Hd. destruct x as [|a x]; [discriminate|]. cbn [app].
  f_equal. apply chunks_fuel_enough; lia.
Qed.

Lemma chunks_single {A} (k : nat) (x : list A) :
  x <> [] -> (length x <= S k)%nat -> chunks (S k) x = [x].
Proof.
  intros Hne Hx. unfold chunks.
  destruct x as [|a x]; [congruence|]. cbn [length chunks_fuel].
  rewrite take_ge, drop_ge by (simpl in *; lia).
  now destruct (length x).
Qed.

Lemma b32_digit_of_symbol (i : N) :
  i < 32 -> digit_of b32hex_alphabet (symbol_of b32hex_alphabet i) = Some i.
Proof.
  intros Hi.
  enough (H : bool_decide (digit_of b32hex_alphabet
                             (symbol_of b32hex_alphabet i) = Some i) = true)
    by now apply bool_decide_eq_true in H.
  revert i Hi. apply (forall_below _ 32). now vm_compute.
Qed.

Lemma b32_symbol_not_pad (i : N) :
  i < 32 -> Byte.eqb (symbol_of b32hex_alphabet i) PAD = false.
Proof.
  intros Hi.
  enough (H : negb (Byte.eqb (symbol_of b32hex_alphabet i) PAD) = true)
    by now apply negb_true_iff in H.
  revert i Hi. apply (forall_below _ 32). now vm_compute.
Qed.

Lemma rstrip_pad_symbols (ds : list N) (rest : bytes) :
  b32_digits_ok ds ->
  rstrip_pad (map (symbol_of b32hex_alphabet) ds ++ rest)
  = map (symbol_of b32hex_alphabet) ds ++ rstrip_pad rest.
Proof.
  induction 1 as [|d ds Hd _ IH]; [reflexivity|].
  cbn [map app rstrip_pad]. rewrite IH, (b32_symbol_not_pad d Hd).
  now destruct (map (symbol_of b32hex_alphabet) ds ++ rstrip_pad rest).
Qed.

Lemma rstrip_pad_replicate (p : nat) : rstrip_pad (replicate p PAD) = [].
Proof. induction p as [|p IH]; [reflexivity|]. cbn. now rewrite IH. Qed.

Lemma b32_acc_symbols (ds : list N) (acc : N) :
  b32_digits_ok ds ->
  b32_acc (map (symbol_of b32hex_alphabet) ds) acc
  = Ok (foldl (fun a d => a * 32 + d) acc ds).
Proof.
  intros H. revert acc. induction H as [|d ds Hd _ IH]; intros acc;
    [reflexivity|].
  cbn [map b32_acc foldl]. rewrite (b32_digit_of_symbol d Hd), IH.
  now rewrite N.shiftl_mul_pow2.
Qed.

Lemma from_bytes_5 (a b c d e : byte) :
  from_bytes [a; b; c; d; e]
  = Byte.to_N a * 4294967296 + Byte.to_N b * 16777216
    + Byte.to_N c * 65536 + Byte.to_N d * 256 + Byte.to_N e.
Proof. unfold from_bytes. cbn [foldl]. lia. Qed.

Lemma from_bytes_5_lt (q : bytes) :
  length q = 5%nat -> from_bytes q < 1099511627776.
Proof.
  destruct q as [|a [|b [|c [|d [|e [|]]]]]]; try discriminate. intros _.
  rewrite from_bytes_5.
  pose proof (to_N_lt a). pose proof (to_N_lt b). pose proof (to_N_lt c).
  pose proof (to_N_lt d). pose proof (to_N_lt e). lia.
Qed.

Lemma b32_digits_lt (c : N) :
  c < 1099511627776 -> b32_digits_ok (b32_digits c).
Proof.
  intros Hc. unfold b32_digits_ok, b32_digits.
  repeat (apply Forall_cons; split; [dlia|]). apply Forall_nil. exact I.
Qed.

Lemma b32_quantum_digits (q : bytes) :
  length q = 5%nat ->
  b32_quantum q
  = map (symbol_of b32hex_alphabet) (b32_digits (from_bytes q)).
Proof.
  intros Hq. pose proof (from_bytes_5_lt q Hq) as Hc.
  unfold b32_quantum, b32tab2, b32_digits.
  set (c := from_bytes q) in *. clearbody c.
  change 0x3ff with (N.ones 10).
  rewrite !N.land_ones, !N.shiftr_div_pow2.
  change (2 ^ 30) with 1073741824. change (2 ^ 20) with 1048576.
  change (2 ^ 10) with 1024.
  cbn [app map].
  repeat (apply (f_equal2 cons); [f_equal; dlia|]). reflexivity.
Qed.

(** The digits of a number give the number back. *)
Lemma b32_digits_horner (c : N) :
  foldl (fun a d => a * 32 + d) 0 (b32_digits c) = c.
Proof.
  unfold b32_digits. cbn [foldl].
  change 34359738368 with (1073741824 * 32).
  change 1073741824 with (33554432 * 32).
  change 33554432 with (1048576 * 32).
  change 1048576 with (32768 * 32).
  change 32768 with (1024 * 32).
  change 1024 with (32 * 32).
  rewrite <- !N.Div0.div_div.
  set (x1 := c / 32). set (x2 := x1 / 32). set (x3 := x2 / 32).
  set (x4 := x3 / 32). set (x5 := x4 / 32). set (x6 := x5 / 32).
  pose proof (N.div_mod c 32 ltac:(lia)) as E0. fold x1 in E0.
  pose proof (N.div_mod x1 32 ltac:(lia)) as E1. fold x2 in E1.
  pose proof (N.div_mod x2 32 ltac:(lia)) as E2. fold x3 in E2.
  pose proof (N.div_mod x3 32 ltac:(lia)) as E3. fold x4 in E3.
  pose proof (N.div_mod x4 32 ltac:(lia)) as E4. fold x5 in E4.
  pose proof (N.div_mod x5 32 ltac:(lia)) as E5. fold x6 in E5.
  pose proof (N.div_mod x6 32 ltac:(lia)) as E6.
  lia.
Qed.

Lemma length_b32_quantum (q : bytes) : length (b32_quantum q) = 8%nat.
Proof. reflexivity. Qed.

Lemma b32_acc_quantum (q : bytes) :
  length q = 5%nat -> b32_acc (b32_quantum q) 0 = Ok (from_bytes q).
Proof.
  intros Hq. pose proof (from_bytes_5_lt q Hq) as Hc.
  rewrite (b32_quantum_digits q Hq), b32_acc_symbols
    by now apply b32_digits_lt.
  f_equal. apply b32_digits_horner.
Qed.

(** Encoding goes quantum by quantum. *)
Lemma b32encode_quantum (q s : bytes) :
  length q = 5%nat -> b32encode (q ++ s) = b32_quantum q ++ b32encode s.
Proof.
  intros Hq. unfold b32encode.
  rewrite length_app, Hq.
  replace ((5 + length s) mod 5)%nat with (length s mod 5)%nat
    by (rewrite Nat.add_comm; symmetry; apply (Nat.Div0.mod_add _ 1 5)).
  pose proof (Nat.mod_upper_bound (length s) 5 ltac:(lia)) as Hlt.
  destruct (length s mod 5)%nat as [|k] eqn:Hk.
  - cbn [Nat.eqb]. rewrite chunks_app by exact Hq. reflexivity.
  - cbn [Nat.eqb]. rewrite <- app_assoc, chunks_app by exact Hq.
    cbn [map concat].
    set (tail := s ++ replicate (5 - S k) Byte.x00).
    assert (Hlen : (8 <= length (concat (map b32_quantum (chunks 5 tail))))%nat).
    { assert (Hne : tail <> []).
      { unfold tail. destruct s; [|discriminate].
        destruct k as [|[|[|[|]]]]; simpl; try discriminate; lia. }
      unfold chunks. destruct tail as [|x tail']; [congruence|].
      cbn [length chunks_fuel map concat]. rewrite length_app. simpl. lia. }
    set (e := concat (map b32_quantum (chunks 5 tail))) in *. clearbody e.
    assert (Hpad : forall n, (n <= 8)%nat ->
              set_padding n (b32_quantum q ++ e)
              = b32_quantum q ++ set_padding n e).
    { intros n Hn. unfold set_padding. rewrite length_app, length_b32_quantum.
      replace (8 + length e - n)%nat with (8 + (length e - n))%nat by lia.
      rewrite <- (length_b32_quantum q) at 1.
      rewrite take_app_add, <- app_assoc. reflexivity. }
    destruct k as [|[|[|[|]]]]; try lia; apply Hpad; lia.
Qed.

(** Decoding goes quantum by quantum too. *)
Lemma b32decode_from_quantum (q rest decoded : bytes) (acc : N) :
  length q = 5%nat ->
  b32decode_from (b32_quantum q ++ rest) decoded acc
  = b32decode_from rest (decoded ++ q) (from_bytes q).
Proof.
  intros Hq. pose proof (from_bytes_5_lt q Hq) as Hc.
  unfold b32decode_from.
  rewrite length_app, length_b32_quantum.
  replace ((8 + length rest) mod 8)%nat with (length rest mod 8)%nat
    by (rewrite Nat.add_comm; symmetry; apply (Nat.Div0.mod_add _ 1 8)).
  destruct (negb (length rest mod 8 =? 0)%nat); [reflexivity|].
  rewrite (b32_quantum_digits q Hq), rstrip_pad_symbols
    by now apply b32_digits_lt.
  rewrite <- (b32_quantum_digits q Hq).
  rewrite length_app, length_b32_quantum.
  replace (8 + length rest - (8 + length (rstrip_pad rest)))%nat
    with (length rest - length (rstrip_pad rest))%nat by lia.
  rewrite chunks_app by apply length_b32_quantum.
  cbn [b32_quanta]. rewrite (b32_acc_quantum q Hq). cbn [bind].
  pose proof (to_bytes_from_bytes q) as Htb. rewrite Hq in Htb.
  rewrite Htb. reflexivity.
Qed.

(** The last, partial quantum: [p] padding characters after the symbols of
    the digits [ds]. *)
Lemma b32decode_from_partial (ds : list N) (p : nat) (decoded : bytes)
    (acc : N) :
  b32_digits_ok ds -> ds <> [] -> (length ds + p = 8)%nat ->
  p ∈ [1; 3; 4; 6]%nat ->
  b32decode_from (map (symbol_of b32hex_alphabet) ds ++ replicate p PAD)
                 decoded acc
  = Ok (decoded
        ++ take ((43 - 5 * p) / 8)
             (to_bytes 5 (foldl (fun a d => a * 32 + d) 0 ds
                          * 2 ^ (5 * N.of_nat p)))).
Proof.
  intros Hds Hne Hlen Hp. unfold b32decode_from.
  rewrite length_app, length_map, length_replicate, Hlen.
  cbn [Nat.modulo Nat.divmod fst snd Nat.eqb negb Nat.sub].
  rewrite rstrip_pad_symbols, rstrip_pad_replicate, app_nil_r by exact Hds.
  rewrite length_map.
  replace (8 - length ds)%nat with p by lia.
  rewrite chunks_single; [| |rewrite length_map; lia].
  2:{ destruct ds; [congruence|discriminate]. }
  cbn [b32_quanta]. rewrite b32_acc_symbols by exact Hds. cbn [bind].
  set (v := foldl (fun a d => a * 32 + d) 0 ds).
  assert (Hin : p ∈ [0; 1; 3; 4; 6]%nat) by (apply elem_of_cons; now right).
  rewrite (bool_decide_eq_true_2 _ Hin). cbn [negb].
  assert (Hp0 : (p =? 0)%nat = false).
  { apply Nat.eqb_neq. intros ->. apply list_elem_of_In in Hp.
    simpl in Hp. lia. }
  rewrite Hp0. cbn [negb andb].
  rewrite bool_decide_eq_false_2.
  2:{ intros E. apply (f_equal length) in E.
      rewrite length_app, length_to_bytes in E. simpl in E. lia. }
  cbn [negb]. rewrite N.shiftl_mul_pow2.
  rewrite length_app, length_to_bytes.
  replace (length decoded + 5 - 5)%nat with (length decoded) by lia.
  now rewrite take_app_length.
Qed.

(** A buffer shorter than one quantum: the symbols of its leading digits,
    then padding. *)
Lemma b32encode_short (t : bytes) :
  (1 <= length t <= 4)%nat ->
  b32encode t
  = map (symbol_of b32hex_alphabet)
        (take (8 - b32_padding (length t))
           (b32_digits (from_bytes (t ++ replicate (5 - length t) Byte.x00))))
    ++ replicate (b32_padding (length t)) PAD.
Proof.
  intros Hlen.
  assert (Hq : length (t ++ replicate (5 - length t) Byte.x00) = 5%nat)
    by (rewrite length_app, length_replicate; lia).
  unfold b32encode.
  replace (length t mod 5)%nat with (length t) by (symmetry; apply Nat.mod_small; lia).
  replace (length t =? 0)%nat with false by (symmetry; apply Nat.eqb_neq; lia).
  rewrite chunks_single; [|destruct t; [simpl in Hlen; lia|discriminate]|lia].
  cbn [map concat]. rewrite app_nil_r, (b32_quantum_digits _ Hq).
  set (c := from_bytes _). unfold b32_digits, set_padding.
  destruct (length t) as [|[|[|[|[|]]]]]; try lia; reflexivity.
Qed.

Lemma b32decode_from_short (t decoded : bytes) (acc : N) :
  (1 <= length t <= 4)%nat ->
  b32decode_from (b32encode t) decoded acc = Ok (decoded ++ t).
Proof.
  intros Hlen.
  assert (Hq : length (t ++ replicate (5 - length t) Byte.x00) = 5%nat)
    by (rewrite length_app, length_replicate; lia).
  pose proof (to_bytes_from_bytes (t ++ replicate (5 - length t) Byte.x00))
    as Htb.
  rewrite Hq in Htb.
  pose proof (from_bytes_5_lt _ Hq) as Hc.
  pose proof (b32_digits_lt _ Hc) as Hds.
  rewrite (b32encode_short t Hlen).
  assert (Hc0 : from_bytes (t ++ replicate (5 - length t) Byte.x00)
                mod 2 ^ (8 * N.of_nat (5 - length t)) = 0).
  { destruct t as [|a [|b [|c [|d [|e t]]]]]; simpl in Hlen; try lia;
      cbn [length Nat.sub replicate app]; rewrite from_bytes_5;
      change (Byte.to_N Byte.x00) with 0;
      [change (2 ^ (8 * N.of_nat 4)) with 4294967296
      |change (2 ^ (8 * N.of_nat 3)) with 16777216
      |change (2 ^ (8 * N.of_nat 2)) with 65536
      |change (2 ^ (8 * N.of_nat 1)) with 256]; dlia. }
  set (c := from_bytes _) in *. clearbody c.
  rewrite b32decode_from_partial.
  - f_equal. f_equal.
    assert (Hv : foldl (fun a d => a * 32 + d) 0
                   (take (8 - b32_padding (length t)) (b32_digits c))
                 * 2 ^ (5 * N.of_nat (b32_padding (length t))) = c).
    { unfold b32_digits.
      destruct (length t) as [|[|[|[|[|]]]]]; try lia;
        cbn [b32_padding Nat.sub take foldl];
        [change (2 ^ (5 * N.of_nat 6)) with 1073741824;
         change (2 ^ (8 * N.of_nat (5 - 1))) with 4294967296 in Hc0
        |change (2 ^ (5 * N.of_nat 4)) with 1048576;
         change (2 ^ (8 * N.of_nat (5 - 2))) with 16777216 in Hc0
        |change (2 ^ (5 * N.of_nat 3)) with 32768;
         change (2 ^ (8 * N.of_nat (5 - 3))) with 65536 in Hc0
        |change (2 ^ (5 * N.of_nat 1)) with 32;
         change (2 ^ (8 * N.of_nat (5 - 4))) with 256 in Hc0]; dlia. }
    rewrite Hv, Htb.
    replace ((43 - 5 * b32_padding (length t)) / 8)%nat with (length t)
      by (destruct (length t) as [|[|[|[|[|]]]]]; try lia; reflexivity).
    apply take_app_length.
  - unfold b32_digits_ok in *. now apply Forall_take.
  - unfold b32_digits.
    destruct (length t) as [|[|[|[|[|]]]]]; try lia; discriminate.
  - rewrite length_take. unfold b32_digits. cbn [length].
    destruct (length t) as [|[|[|[|[|]]]]]; try lia; reflexivity.
  - destruct (length t) as [|[|[|[|[|]]]]]; try lia; cbn [b32_padding];
      rewrite !elem_of_cons; auto.
Qed.

Lemma b32decode_from_encode (s : bytes) :
  forall decoded acc,
    b32decode_from (b32encode s) decoded acc = Ok (decoded ++ s).
Proof.
  induction s as [|a|a b|a b c|a b c d|a b c d e s IH] using list_ind5;
    intros decoded acc.
  - cbn. now rewrite app_nil_r.
  - apply b32decode_from_short. simpl. lia.
  - apply b32decode_from_short. simpl. lia.
  - apply b32decode_from_short. simpl. lia.
  - apply b32decode_from_short. simpl. lia.
  - change (a :: b :: c :: d :: e :: s) with ([a; b; c; d; e] ++ s).
    rewrite b32encode_quantum, b32decode_from_quantum, IH by reflexivity.
    now rewrite <- app_assoc.
Qed.

(** Base32hex decoding undoes base32hex encoding on every buffer. *)
Lemma b32decode_b32encode (s : bytes) : b32decode (b32encode s) = Ok s.
Proof. exact (b32decode_from_encode s [] 0). Qed.

(** ** Alphabets *)

Lemma symbol_of_in (alphabet : bytes) (i : N) (P : byte -> Prop) :
  Forall P alphabet -> P Byte.x00 -> P (symbol_of alphabet i).
Proof.
  intros Ha H0. unfold symbol_of.
  destruct (nth_in_or_default (N.to_nat i) alphabet Byte.x00) as [Hin| ->];
    [|exact H0].
  rewrite Forall_forall in Ha. apply Ha. now apply list_elem_of_In.
Qed.

Lemma b64encode_ascii (s : bytes) : ascii_bytes (b64encode s).
Proof.
  assert (Hs : forall i, Byte.to_N (symbol_of b64_alphabet i) < 128).
  { intros i. apply (symbol_of_in _ _ (fun x => Byte.to_N x < 128));
      [|reflexivity].
    vm_compute. repeat constructor. }
  unfold ascii_bytes.
  induction s as [|a|a b|a b c s IH] using list_ind3; cbn [b64encode];
    repeat (apply Forall_cons; split; [first [apply Hs|reflexivity]|]);
    try apply Forall_nil; auto.
Qed.

Lemma table_a_ascii (c : N) : c < 128 -> is_ascii (table_a c).
Proof.
  intros Hc. rewrite table_a_digit. unfold is_ascii.
  destruct (in_a_p c); repeat constructor; [dlia|exact Hc].
Qed.

Lemma table_b_ascii (c : N) : c < 128 -> is_ascii (table_b c).
Proof.
  intros Hc. pose proof (table_b_digits c) as H. unfold is_ascii.
  destruct (in_f_x c).
  - revert H. generalize (table_b c). apply Forall_forall.
    vm_compute. repeat constructor.
  - rewrite H. now repeat constructor.
Qed.

Lemma flat_map_ascii (f : N -> str) (s : str) :
  (forall c, c < 128 -> is_ascii (f c)) -> is_ascii s -> is_ascii (flat_map f s).
Proof.
  intros Hf. unfold is_ascii. induction 1 as [|c s Hc _ IH]; simpl.
  - constructor.
  - apply Forall_app. split; [now apply Hf|exact IH].
Qed.

Lemma substituted_text_ascii (raw : bytes) : is_ascii (substituted_text raw).
Proof.
  unfold substituted_text.
  rewrite regex_f_x_transform_table, regex_a_p_transform_table.
  apply flat_map_ascii; [apply table_b_ascii|].
  apply flat_map_ascii; [apply table_a_ascii|].
  apply is_ascii_to_N, b64encode_ascii.
Qed.

(** ** The pipeline *)

Lemma str_encode_to_N (b : bytes) :
  ascii_bytes b -> str_encode (map Byte.to_N b) = Ok b.
Proof.
  intros H. rewrite str_encode_ascii by now apply is_ascii_to_N.
  now rewrite map_byte_of_N_to_N.
Qed.

Lemma bytes_decode_of_N (s : str) :
  is_ascii s -> bytes_decode (map byte_of_N s) = Ok s.
Proof.
  intros H. apply bytes_decode_str_encode. now apply str_encode_ascii.
Qed.

Lemma str_encode_scalar_values (s : str) :
  Forall scalar_value s -> exists raw, str_encode s = Ok raw.
Proof.
  induction 1 as [|c s Hc _ [raw IH]]; cbn [str_encode]; [eauto|].
  rewrite IH.
  assert (Hchar : exists b, utf8_encode_char c = Ok b).
  { unfold utf8_encode_char, scalar_value in *.
    destruct (N.ltb_spec c 0x80); [eauto|].
    destruct (N.ltb_spec c 0x800); [eauto|].
    destruct (N.ltb_spec c 0x10000).
    - destruct (N.leb_spec 0xD800 c), (N.ltb_spec c 0xE000); cbn [andb];
        eauto; lia.
    - destruct (N.ltb_spec c 0x110000); [eauto|lia]. }
  destruct Hchar as [b ->]. cbn [bind]. eauto.
Qed.

Lemma str_encode_Raise (s : str) (e : exn) :
  str_encode s = Raise e -> e = UnicodeEncodeError.
Proof.
  induction s as [|c s IH]; cbn [str_encode]; [discriminate|].
  destruct (utf8_encode_char c) eqn:Ec; cbn [bind].
  - destruct (str_encode s); cbn [bind]; [discriminate|]. intros [= <-]. auto.
  - intros [= <-]. unfold utf8_encode_char in Ec.
    repeat match type of Ec with
           | context [if ?c then _ else _] => destruct c
           end; congruence.
Qed.

Lemma str_encode_Ok_scalar_values (s : str) (raw : bytes) :
  str_encode s = Ok raw -> Forall scalar_value s.
Proof.
  revert raw. induction s as [|c s IH]; intros raw; [constructor|].
  cbn [str_encode]. intros H.
  apply bind_Ok in H as [b [Hb H]]. apply bind_Ok in H as [bs [Hbs _]].
  constructor; [|eapply IH, Hbs].
  unfold utf8_encode_char, scalar_value in *.
  destruct (N.ltb_spec c 0x80); [lia|].
  destruct (N.ltb_spec c 0x800); [lia|].
  destruct (N.ltb_spec c 0x10000).
  - destruct (N.leb_spec 0xD800 c), (N.ltb_spec c 0xE000); cbn [andb] in Hb;
      try discriminate; lia.
  - destruct (N.ltb_spec c 0x110000); [lia|discriminate].
Qed.

(** The strings that have a UTF-8 encoding are the strings of scalar
    values: those without a lone surrogate. *)
Lemma str_encode_Raise_iff (s : str) :
  str_encode s = Raise UnicodeEncodeError <-> ~ Forall scalar_value s.
Proof.
  split.
  - intros H Hs. destruct (str_encode_scalar_values s Hs) as [raw Hraw].
    congruence.
  - intros Hs. destruct (str_encode s) as [raw|e] eqn:E.
    + exfalso. eapply Hs, str_encode_Ok_scalar_values, E.
    + f_equal. eapply str_encode_Raise, E.
Qed.

Lemma str_encode_nonempty (c : N) (s : str) (raw : bytes) :
  str_encode (c :: s) = Ok raw -> raw <> [].
Proof.
  cbn [str_encode]. intros H.
  apply bind_Ok in H as [b [Hb H]]. apply bind_Ok in H as [bs [_ [= <-]]].
  unfold utf8_encode_char in Hb.
  repeat match type of Hb with
         | context [if ?t then _ else _] => destruct t
         end; try discriminate; injection Hb as <-; discriminate.
Qed.

(** *** [encode_datetime] *)

(** Every stage before the last one goes through on a string that has a
    UTF-8 encoding: the base64 text and the substituted text are ASCII.
    The last line then calls [.decode()] on the text that
    [base32hex.b32encode] returns. *)
Lemma encode_datetime_encodable (dt : TimeValue) (raw : bytes) :
  str_encode (canonical dt) = Ok raw ->
  encode_datetime dt = Raise AttributeError.
Proof.
  intros Hraw. unfold encode_datetime. rewrite Hraw. cbn [bind].
  rewrite bytes_decode_ascii by apply b64encode_ascii. cbn [bind].
  fold (substituted_text raw).
  rewrite str_encode_ascii by apply substituted_text_ascii. cbn [bind].
  reflexivity.
Qed.

Lemma encode_datetime_unencodable (dt : TimeValue) (e : exn) :
  str_encode (canonical dt) = Raise e ->
  encode_datetime dt = Raise UnicodeEncodeError.
Proof.
  intros Hraw. unfold encode_datetime. rewrite Hraw. cbn [bind].
  f_equal. eapply str_encode_Raise, Hraw.
Qed.

Lemma encode_datetime_outcome (dt : TimeValue) :
  encode_datetime dt = Raise AttributeError
  \/ encode_datetime dt = Raise UnicodeEncodeError.
Proof.
  destruct (str_encode (canonical dt)) as [raw|e] eqn:E.
  - left. eapply encode_datetime_encodable, E.
  - right. eapply encode_datetime_unencodable, E.
Qed.

(** *** [decode_eta] *)

Lemma decode_eta_nil : decode_eta [] = Raise TypeError.
Proof. reflexivity. Qed.

(** On a token that is not empty, [base32hex.b32decode] is handed a
    [bytes] object that is not empty. *)
Lemma decode_eta_encodable (encoded : str) (raw : bytes) :
  encoded <> [] -> str_encode encoded = Ok raw ->
  decode_eta encoded = Raise KeyError.
Proof.
  intros Hne Hraw. destruct encoded as [|c s]; [congruence|].
  pose proof (str_encode_nonempty _ _ _ Hraw) as Hb.
  unfold decode_eta. rewrite Hraw. cbn [bind].
  destruct raw; [congruence|reflexivity].
Qed.

Lemma decode_eta_unencodable (encoded : str) (e : exn) :
  str_encode encoded = Raise e -> decode_eta encoded = Raise UnicodeEncodeError.
Proof.
  intros Hraw. unfold decode_eta. rewrite Hraw. cbn [bind].
  f_equal. eapply str_encode_Raise, Hraw.
Qed.


(** ** The file container *)

Lemma universal_newlines_id (s : str) :
  Forall (fun c => (c =? CR) = false) s -> universal_newlines s = s.
Proof.
  induction 1 as [|c s Hc _ IH]; cbn [universal_newlines]; [reflexivity|].
  now rewrite Hc, IH.
Qed.

Lemma splitlines_from_plain (line cur rest : str) :
  Forall (fun c => (c =? CR) = false /\ is_linebreak c = false) line ->
  splitlines_from cur (line ++ rest) = splitlines_from (rev line ++ cur) rest.
Proof.
  intros H. revert cur. induction H as [|c line [Hc Hl] _ IH]; intros cur;
    [reflexivity|].
  cbn [app splitlines_from]. rewrite Hc, Hl, IH. cbn [rev].
  now rewrite <- app_assoc.
Qed.

Lemma splitlines_from_LF (cur rest : str) :
  splitlines_from cur (LF :: rest) = rev cur :: splitlines_from [] rest.
Proof. reflexivity. Qed.

(** [write_eta_file] stops where [encode_datetime] raises: before [open]. *)
Lemma write_eta_file_Raise (path : string) (dt : TimeValue) (e : exn)
    (fs : filesystem) :
  encode_datetime dt = Raise e -> write_eta_file path dt fs = (Raise e, fs).
Proof.
  intros H. unfold write_eta_file, io_bind, io_lift. now rewrite H.
Qed.

(** * The claims of the design, settled on the code *)

(** C7: both base codecs give every buffer back, the empty one included:
    [Codec64.decode(Codec64.encode(b)) == b] and
    [Codec32.decode(Codec32.encode(b)) == b]. *)
Theorem base_codecs_roundtrip (b : bytes) :
  b64decode (b64encode b) = Ok b
  /\ b32decode (b32encode b) = Ok b
  /\ b64decode (b64encode []) = Ok []
  /\ b32decode (b32encode []) = Ok [].
Proof.
  split; [apply b64decode_b64encode|].
  split; [apply b32decode_b32encode|].
  split; reflexivity.
Qed.

(** C1 does not hold on the code: the round trip stops in
    [encode_datetime].  On every input whose string has a UTF-8 encoding
    the six stages are computed and the last line raises [AttributeError],
    because [base32hex.b32encode] returns text and text has no [decode]
    method; [decode(encode(x))] therefore has no value at all. *)
Theorem roundtrip_stops_in_encode (x : TimeValue) (raw : bytes) :
  str_encode (canonical x) = Ok raw ->
  encode_datetime x = Raise AttributeError
  /\ (let* token := encode_datetime x in decode_eta token)
     = Raise AttributeError.
Proof.
  intros Hraw. pose proof (encode_datetime_encodable x raw Hraw) as H.
  split; [exact H|]. now rewrite H.
Qed.

Lemma roundtrip_stops_in_encode_witness :
  encode_datetime (Str (str_lit "2024-01-01 00:00:00")) = Raise AttributeError
  /\ (let* token := encode_datetime (Str (str_lit "2024-01-01 00:00:00")) in
      decode_eta token)
     = Raise AttributeError.
Proof.
  apply (roundtrip_stops_in_encode
           (Str (str_lit "2024-01-01 00:00:00"))
           (bytes_lit "2024-01-01 00:00:00")).
  vm_compute. reflexivity.
Defined.

(** C2 does not hold on the code: whatever character of a token is
    replaced, and by whatever character, [decode_eta] raises [KeyError],
    which is neither the frame error nor the error of a malformed encoding.
    The token is turned into [bytes] before [base32hex.b32decode] sees it,
    and the package finds no byte among its symbols. *)
Theorem corrupted_token_key_error (token : str) (i : nat) (c : N)
    (raw : bytes) :
  token <> [] ->
  str_encode (<[i := c]> token) = Ok raw ->
  decode_eta (<[i := c]> token) = Raise KeyError
  /\ KeyError <> FrameFormatError
  /\ KeyError <> MalformedEncodingError.
Proof.
  intros Hne Hraw. split; [|split; discriminate].
  apply (decode_eta_encodable _ raw); [|exact Hraw].
  intros Hnil. apply (f_equal (@length N)) in Hnil.
  rewrite length_insert in Hnil. destruct token; [congruence|discriminate].
Qed.

Lemma corrupted_token_key_error_witness :
  decode_eta
    (<[20%nat := 75]>
       (str_lit "BD2L8GAV912K2H25A9EGM3OSDDDKAL21BT34UJQK8L95Q==="))
  = Raise KeyError
  /\ KeyError <> FrameFormatError
  /\ KeyError <> MalformedEncodingError.
Proof.
  apply (corrupted_token_key_error
           (str_lit "BD2L8GAV912K2H25A9EGM3OSDDDKAL21BT34UJQK8L95Q===")
           20 75
           (bytes_lit "BD2L8GAV912K2H25A9EGK3OSDDDKAL21BT34UJQK8L95Q===")).
  - discriminate.
  - vm_compute. reflexivity.
Defined.



(** C4, as stated, fails: the empty token does not raise the error of a
    malformed encoding. *)
Lemma decode_empty_not_malformed :
  decode_eta [] <> Raise MalformedEncodingError.
Proof. vm_compute. discriminate. Qed.

(** C4, amended: decoding the empty token with [base32hex] succeeds, with
    an empty result, and it is the frame step that raises on that result;
    the error is not the one of a malformed encoding. *)
Theorem decode_empty_fails_in_unwrap :
  base32hex_b32decode [] = Ok (PyStr [])
  /\ exists e, struct_unwrap_object (PyStr []) = Raise e
               /\ decode_eta [] = Raise e
               /\ e <> MalformedEncodingError.
Proof.
  split; [reflexivity|]. exists TypeError.
  repeat split; try reflexivity. discriminate.
Qed.





(** * Further properties of the module *)

(** ** The XOR mask *)

Lemma to_N_byte_xor (a b : byte) :
  Byte.to_N (byte_xor a b) = N.lxor (Byte.to_N a) (Byte.to_N b).
Proof.
  unfold byte_xor. apply to_N_byte_of_N.
  assert (Hlog : forall n, n < 256 -> n = 0 \/ N.log2 n < 8).
  { intros n Hn. destruct n as [|p]; [now left|right].
    apply (N.log2_lt_pow2 (N.pos p) 8); [lia|exact Hn]. }
  destruct (N.lxor (Byte.to_N a) (Byte.to_N b)) as [|p] eqn:E; [lia|].
  apply (N.log2_lt_pow2 (N.pos p) 8); [lia|].
  rewrite <- E. eapply N.le_lt_trans; [apply N.log2_lxor|].
  destruct (Hlog _ (to_N_lt a)) as [Ha|Ha], (Hlog _ (to_N_lt b)) as [Hb|Hb];
    try rewrite Ha; try rewrite Hb; simpl N.log2; lia.
Qed.

Lemma byte_xor_assoc (b k1 k2 : byte) :
  byte_xor (byte_xor b k1) k2 = byte_xor b (byte_xor k1 k2).
Proof.
  apply to_N_inj. rewrite !to_N_byte_xor. apply N.lxor_assoc.
Qed.

(** X1: masking twice with the same key, whatever the key, gives the buffer
    back, and masking keeps the length of the buffer. *)
Theorem xor_binary_self_inverse (data : bytes) (key : byte) :
  xor_binary (xor_binary data key) key = data
  /\ length (xor_binary data key) = length data.
Proof.
  split.
  - unfold xor_binary. rewrite map_map.
    induction data as [|b data IH]; cbn [map]; [reflexivity|].
    rewrite IH. f_equal. apply to_N_inj. rewrite !to_N_byte_xor.
    now rewrite N.lxor_assoc, N.lxor_nilpotent, N.lxor_0_r.
  - unfold xor_binary. apply length_map.
Qed.

(** X2: two masks in a row are one mask with the XOR of the two keys; the
    key 0 changes nothing, and a key other than 0 changes every byte. *)
Theorem xor_binary_compose (data : bytes) (k1 k2 : byte) :
  xor_binary (xor_binary data k1) k2 = xor_binary data (byte_xor k1 k2)
  /\ xor_binary data Byte.x00 = data
  /\ (k1 <> Byte.x00 ->
      Forall2 (fun b b' => b <> b') data (xor_binary data k1)).
Proof.
  unfold xor_binary. split; [|split].
  - rewrite map_map. apply map_ext. intros b. apply byte_xor_assoc.
  - induction data as [|b data IH]; cbn [map]; [reflexivity|].
    rewrite IH. f_equal. apply to_N_inj. rewrite to_N_byte_xor.
    apply N.lxor_0_r.
  - intros Hk. induction data as [|b data IH]; cbn [map]; constructor;
      [|exact IH].
    intros Hb. apply Hk. apply to_N_inj.
    apply (f_equal Byte.to_N) in Hb. rewrite to_N_byte_xor in Hb.
    change (Byte.to_N Byte.x00) with 0.
    assert (E : N.lxor (Byte.to_N b) (N.lxor (Byte.to_N b) (Byte.to_N k1))
                = Byte.to_N k1)
      by (rewrite <- N.lxor_assoc, N.lxor_nilpotent; apply N.lxor_0_l).
    rewrite <- Hb, N.lxor_nilpotent in E. now symmetry.
Qed.

Lemma xor_binary_compose_witness :
  Forall2 (fun b b' => b <> b') (bytes_lit "eta")
          (xor_binary (bytes_lit "eta") default_key).
Proof.
  apply (xor_binary_compose (bytes_lit "eta") default_key Byte.x00).
  discriminate.
Defined.

(** ** The substitution passes *)

(** A property of every code point: checked on the 128 ASCII codes, and
    shown for the others. *)
Lemma ascii_or_not (P : N -> Prop) (f : N -> bool) :
  (forall c, f c = true -> P c) ->
  forallb f (map N.of_nat (seq 0 128)) = true ->
  (forall c, 128 <= c -> P c) ->
  forall c, P c.
Proof.
  intros Hf Hlow Hhigh c. destruct (N.ltb_spec c 128) as [Hc|Hc]; [|auto].
  apply Hf. exact (forall_below _ 128 Hlow c Hc).
Qed.

Lemma not_a_letter (c : N) :
  128 <= c -> in_a_p c = false /\ in_f_x c = false /\ in_q_x c = false.
Proof.
  intros Hc. unfold in_a_p, in_f_x, in_q_x.
  repeat split; apply andb_false_iff; right; apply N.leb_gt; lia.
Qed.

Ltac not_a_letter c H :=
  destruct (not_a_letter c H) as (Ha & Hf & Hq);
  unfold table_ab, table_a, table_b; cbn [flat_map app];
  unfold table_ab, table_a, table_b; rewrite ?Ha, ?Hf, ?Hq;
  cbn [flat_map app length forallb negb andb]; rewrite ?Ha, ?Hf, ?Hq.

Lemma table_b_table_a (c : N) : flat_map table_b (table_a c) = table_ab c.
Proof.
  revert c.
  apply (ascii_or_not _ (fun c => bool_decide
                             (flat_map table_b (table_a c) = table_ab c))).
  - intros c. apply bool_decide_eq_true.
  - now vm_compute.
  - intros c Hc. not_a_letter c Hc. reflexivity.
Qed.

Lemma table_ab_no_letter (c : N) :
  forallb (fun d => negb (in_a_p d) && negb (in_f_x d)) (table_ab c) = true.
Proof.
  revert c.
  apply (ascii_or_not _ (fun c => forallb (fun d => negb (in_a_p d)
                                                    && negb (in_f_x d))
                                    (table_ab c))).
  - auto.
  - now vm_compute.
  - intros c Hc. not_a_letter c Hc. reflexivity.
Qed.

Lemma table_a_no_letter (c : N) :
  forallb (fun d => negb (in_a_p d)) (table_a c) = true.
Proof.
  revert c.
  apply (ascii_or_not _ (fun c => forallb (fun d => negb (in_a_p d))
                                    (table_a c))).
  - auto.
  - now vm_compute.
  - intros c Hc. not_a_letter c Hc. reflexivity.
Qed.

Lemma table_b_no_letter (c : N) :
  forallb (fun d => negb (in_f_x d)) (table_b c) = true.
Proof.
  revert c.
  apply (ascii_or_not _ (fun c => forallb (fun d => negb (in_f_x d))
                                    (table_b c))).
  - auto.
  - now vm_compute.
  - intros c Hc. not_a_letter c Hc. reflexivity.
Qed.

Lemma table_lengths (c : N) :
  length (table_a c) = 1%nat
  /\ (1 <= length (table_b c) <= 2)%nat
  /\ (1 <= length (table_ab c) <= 2)%nat.
Proof.
  revert c.
  apply (ascii_or_not _ (fun c => (length (table_a c) =? 1)%nat
                                  && (1 <=? length (table_b c))%nat
                                  && (length (table_b c) <=? 2)%nat
                                  && (1 <=? length (table_ab c))%nat
                                  && (length (table_ab c) <=? 2)%nat)).
  - intros c H. repeat apply andb_true_iff in H as [H ?].
    apply Nat.eqb_eq in H. rewrite !Nat.leb_le in *. lia.
  - now vm_compute.
  - intros c Hc. not_a_letter c Hc. lia.
Qed.

Lemma flat_map_flat_map {A} (f g : A -> list A) (l : list A) :
  flat_map g (flat_map f l) = flat_map (fun x => flat_map g (f x)) l.
Proof.
  induction l as [|x l IH]; cbn [flat_map]; [reflexivity|].
  now rewrite flat_map_app, IH.
Qed.

Lemma flat_map_fixed {A} (f : A -> list A) (l : list A) :
  Forall (fun x => f x = [x]) l -> flat_map f l = l.
Proof.
  induction 1 as [|x l Hx _ IH]; cbn [flat_map]; [reflexivity|].
  now rewrite Hx, IH.
Qed.

Lemma Forall_flat_map {A} (P : A -> Prop) (f : A -> list A) (l : list A) :
  (forall x, Forall P (f x)) -> Forall P (flat_map f l).
Proof.
  intros Hf. induction l as [|x l IH]; cbn [flat_map]; [constructor|].
  apply Forall_app. split; [apply Hf|exact IH].
Qed.

Lemma forallb_Forall_neg (g : N -> bool) (l : str) :
  forallb (fun d => negb (g d)) l = true -> Forall (fun d => g d = false) l.
Proof.
  intros H. apply (Forall_checked _ _ _ (fun d => proj1 (negb_true_iff _)) H).
Qed.

Lemma regex_passes_table (text : str) :
  regex_f_x_transform (regex_a_p_transform text) = flat_map table_ab text.
Proof.
  rewrite regex_f_x_transform_table, regex_a_p_transform_table.
  rewrite flat_map_flat_map. apply flat_map_ext. intros c.
  apply table_b_table_a.
Qed.

(** X3: the two passes together act as one table.  Table A takes all of
    [a..p], so of table B only the letters [q..x] ever apply, and the digits
    that table A writes are not touched by table B. *)
Theorem substitution_passes_compose (text : str) :
  regex_f_x_transform (regex_a_p_transform text) = flat_map table_ab text
  /\ Forall (fun c => if in_a_p c
                      then table_ab c = [49 + (c - 97) mod 5]
                      else if in_q_x c
                           then table_ab c
                                = py_str ((ord c - ord 102) mod 4 + 9)
                           else table_ab c = [c]) text.
Proof.
  split; [apply regex_passes_table|].
  apply Forall_forall. intros c _. unfold table_ab.
  {
    pose proof (table_a_digit c) as Ha.
    destruct (in_a_p c) eqn:Eap; [exact Ha|].
    destruct (in_q_x c) eqn:Eqx; [|reflexivity].
    unfold table_b, in_f_x, in_q_x in *.
    apply andb_true_iff in Eqx as [H1 H2]. apply N.leb_le in H1.
    rewrite H2. replace (102 <=? c) with true
      by (symmetry; apply N.leb_le; lia).
    reflexivity. }
Qed.

(** X4: a pass leaves none of its letters behind: no [a..p] after the first
    pass, no [f..x] after the second, and neither after both. *)
Theorem substitution_leaves_no_letter (text : str) :
  Forall (fun c => in_a_p c = false) (regex_a_p_transform text)
  /\ Forall (fun c => in_f_x c = false) (regex_f_x_transform text)
  /\ Forall (fun c => in_a_p c = false /\ in_f_x c = false)
       (regex_f_x_transform (regex_a_p_transform text)).
Proof.
  split; [|split].
  - rewrite regex_a_p_transform_table. apply Forall_flat_map. intros c.
    apply forallb_Forall_neg, table_a_no_letter.
  - rewrite regex_f_x_transform_table. apply Forall_flat_map. intros c.
    apply forallb_Forall_neg, table_b_no_letter.
  - rewrite regex_f_x_transform_table, regex_a_p_transform_table.
    rewrite flat_map_flat_map. apply Forall_flat_map. intros c.
    rewrite table_b_table_a.
    apply (Forall_checked _ (fun d => negb (in_a_p d) && negb (in_f_x d)));
      [|apply table_ab_no_letter].
    intros d [H1 H2]%andb_true_iff. now rewrite negb_true_iff in *.
Qed.

(** X5: the first pass keeps the length of the text; the second pass, which
    writes one or two digits per letter, at most doubles it. *)
Theorem substitution_lengths (text : str) :
  length (regex_a_p_transform text) = length text
  /\ (length text <= length (regex_f_x_transform text) <= 2 * length text)%nat
  /\ (length text
      <= length (regex_f_x_transform (regex_a_p_transform text))
      <= 2 * length text)%nat.
Proof.
  rewrite regex_passes_table.
  rewrite regex_f_x_transform_table, regex_a_p_transform_table.
  induction text as [|c text IH]; cbn [flat_map length]; [lia|].
  rewrite !length_app.
  destruct (table_lengths c) as (Ha & Hb & Hab). lia.
Qed.

Lemma table_idempotent (c : N) :
  flat_map table_a (table_a c) = table_a c
  /\ flat_map table_b (table_b c) = table_b c
  /\ flat_map table_ab (table_ab c) = table_ab c.
Proof.
  revert c.
  apply (ascii_or_not _
           (fun c => bool_decide (flat_map table_a (table_a c) = table_a c)
                     && bool_decide (flat_map table_b (table_b c) = table_b c)
                     && bool_decide (flat_map table_ab (table_ab c)
                                     = table_ab c))).
  - intros c H. repeat apply andb_true_iff in H as [H ?].
    rewrite !bool_decide_eq_true in *. auto.
  - now vm_compute.
  - intros c Hc. not_a_letter c Hc. auto.
Qed.

(** X6: each pass is idempotent, and so is the pair: a text that has been
    substituted is not changed by substituting it again. *)
Theorem substitution_idempotent (text : str) :
  regex_a_p_transform (regex_a_p_transform text) = regex_a_p_transform text
  /\ regex_f_x_transform (regex_f_x_transform text)
     = regex_f_x_transform text
  /\ regex_f_x_transform
       (regex_a_p_transform
          (regex_f_x_transform (regex_a_p_transform text)))
     = regex_f_x_transform (regex_a_p_transform text).
Proof.
  rewrite !regex_passes_table.
  rewrite !regex_f_x_transform_table, !regex_a_p_transform_table.
  rewrite !flat_map_flat_map.
  repeat split; apply flat_map_ext; intros c; apply table_idempotent.
Qed.

(** X7: a text without letters of [a..p] -- digits, punctuation, capitals,
    spaces -- is exactly a text that the first pass gives back unchanged;
    a text without letters of [f..x] is given back unchanged by the second
    pass. *)
Theorem substitution_fixed_text (text : str) :
  (Forall (fun c => in_a_p c = false) text
   <-> regex_a_p_transform text = text)
  /\ (Forall (fun c => in_f_x c = false) text ->
      regex_f_x_transform text = text).
Proof.
  split; [split|].
  - intros H. rewrite regex_a_p_transform_table. apply flat_map_fixed.
    eapply Forall_impl; [exact H|]. intros c Hc. cbv beta in Hc.
    unfold table_a. now rewrite Hc.
  - intros H. rewrite <- H.
    rewrite regex_a_p_transform_table. apply Forall_flat_map. intros c.
    apply forallb_Forall_neg, table_a_no_letter.
  - intros H. rewrite regex_f_x_transform_table. apply flat_map_fixed.
    eapply Forall_impl; [exact H|]. intros c Hc. cbv beta in Hc.
    unfold table_b. now rewrite Hc.
Qed.

Lemma substitution_fixed_text_witness :
  regex_f_x_transform (str_lit "2024-01-01 00:00:00 UTC")
  = str_lit "2024-01-01 00:00:00 UTC".
Proof.
  apply (substitution_fixed_text (str_lit "2024-01-01 00:00:00 UTC")).
  apply (Forall_checked _ (fun c => negb (in_f_x c))).
  - intros c. apply negb_true_iff.
  - vm_compute. reflexivity.
Defined.

(** ** The frame *)

(** X8: wrapping adds the 24 bytes of the two markers, so an unwrapped
    payload is 24 bytes shorter than its buffer, and unwrapping a buffer of
    fewer than 24 bytes always raises the frame error. *)
Theorem frame_lengths (data : bytes) :
  length (struct_wrap data) = (length data + 24)%nat
  /\ (forall payload, struct_unwrap data = Ok payload ->
                      length data = (length payload + 24)%nat)
  /\ ((length data < 24)%nat -> struct_unwrap data = Raise FrameFormatError).
Proof.
  assert (Hok : forall payload, struct_unwrap data = Ok payload ->
                                length data = (length payload + 24)%nat).
  { intros payload H. apply struct_unwrap_Ok in H. subst data.
    rewrite !length_app.
    change (length ETA_HEADER) with 12%nat.
    change (length ETA_FOOTER) with 12%nat. lia. }
  split; [|split; [exact Hok|]].
  - unfold struct_wrap. rewrite !length_app.
    change (length ETA_HEADER) with 12%nat.
    change (length ETA_FOOTER) with 12%nat. lia.
  - intros Hlen. destruct (struct_unwrap data) as [payload|e] eqn:E.
    + specialize (Hok payload eq_refl). lia.
    + now destruct (struct_unwrap_Raise _ _ E) as [-> _].
Qed.

Lemma frame_lengths_witness :
  struct_unwrap (ETA_HEADER ++ bytes_lit "[ETA_FOOTER") = Raise FrameFormatError.
Proof.
  apply (frame_lengths (ETA_HEADER ++ bytes_lit "[ETA_FOOTER")).
  vm_compute. lia.
Defined.

(** ** [datetime] inputs *)

Lemma uint_digits_ascii (d : Decimal.uint) : is_ascii (uint_digits d).
Proof.
  unfold is_ascii.
  induction d; cbn [uint_digits]; constructor; auto; reflexivity.
Qed.

Lemma py_str_ascii (z : Z) : is_ascii (py_str z).
Proof.
  unfold py_str. destruct (Z.to_int z); [apply uint_digits_ascii|].
  constructor; [reflexivity|apply uint_digits_ascii].
Qed.

Lemma strftime_ascii (d : datetime) : is_ascii (strftime d).
Proof.
  unfold strftime, zero_padded, is_ascii.
  repeat (apply Forall_app; split);
    first [ apply py_str_ascii
          | apply Forall_replicate; reflexivity
          | apply Forall_singleton; reflexivity ].
Qed.

(** X10: a [datetime] value is formatted to an ASCII text, so none of the
    UTF-8 steps of [encode_datetime] can fail on it; the call still raises,
    always with [AttributeError], on its last line. *)
Theorem encode_datetime_of_datetime (d : datetime) :
  is_ascii (canonical (DateTime d))
  /\ encode_datetime (DateTime d) = Raise AttributeError.
Proof.
  pose proof (strftime_ascii d) as Ha. split; [exact Ha|].
  eapply encode_datetime_encodable, str_encode_ascii, Ha.
Qed.

(** ** The exceptions of [decode_eta] *)

(** X13: [decode_eta] returns on no token, and the token alone decides the
    exception: [UnicodeEncodeError] when the token holds a lone surrogate,
    [TypeError] when it is empty, [KeyError] in every other case, whatever
    the length and the characters of the token. *)
Theorem decode_eta_errors (encoded : str) :
  (exists e, decode_eta encoded = Raise e)
  /\ (decode_eta encoded = Raise UnicodeEncodeError
      <-> ~ Forall scalar_value encoded)
  /\ (decode_eta encoded = Raise TypeError <-> encoded = [])
  /\ (decode_eta encoded = Raise KeyError
      <-> encoded <> [] /\ Forall scalar_value encoded).
Proof.
  destruct encoded as [|c s].
  - rewrite decode_eta_nil. split; [eauto|]. split; [|split].
    + split; [discriminate|]. intros H. exfalso. apply H. constructor.
    + split; reflexivity.
    + split; [discriminate|]. intros [H _]. congruence.
  - destruct (str_encode (c :: s)) as [raw|e] eqn:E.
    + pose proof (str_encode_Ok_scalar_values _ _ E) as Hs.
      rewrite (decode_eta_encodable (c :: s) raw) by (discriminate || exact E).
      split; [eauto|]. split; [|split].
      * split; [discriminate|]. intros H. contradiction.
      * split; discriminate.
      * split; [|reflexivity]. intros _. split; [discriminate|exact Hs].
    + assert (Hs : ~ Forall scalar_value (c :: s)).
      { apply str_encode_Raise_iff. rewrite E. f_equal.
        eapply str_encode_Raise, E. }
      rewrite (decode_eta_unencodable (c :: s) e E).
      split; [eauto|]. split; [|split].
      * split; [|reflexivity]. intros _. exact Hs.
      * split; discriminate.
      * split; [discriminate|]. intros [_ H]. contradiction.
Qed.

(** ** Reading and writing files *)

Lemma visible_plain (c : N) :
  visible c = true ->
  (c =? CR) = false /\ is_linebreak c = false /\ isspace c = false /\ c < 128.
Proof.
  revert c.
  apply (ascii_or_not
           (fun c => visible c = true ->
                     (c =? CR) = false /\ is_linebreak c = false
                     /\ isspace c = false /\ c < 128)
           (fun c => negb (visible c)
                                  || (negb (c =? CR) && negb (is_linebreak c)
                                      && negb (isspace c) && (c <? 128)))).
  - intros c H Hv. rewrite Hv in H. cbn [negb orb] in H.
    repeat apply andb_true_iff in H as [H ?].
    rewrite negb_true_iff in *. rewrite N.ltb_lt in *. auto.
  - now vm_compute.
  - intros c Hc Hv. unfold visible in Hv.
    apply andb_true_iff in Hv as [_ Hv]. apply N.leb_le in Hv. lia.
Qed.

Lemma file_text_cons (l : str) (ls : list str) :
  file_text (l :: ls) = l ++ LF :: file_text ls.
Proof. unfold file_text. cbn [map concat]. now rewrite <- app_assoc. Qed.

Lemma file_text_plain (ls : list str) :
  Forall is_line ls ->
  is_ascii (file_text ls)
  /\ Forall (fun c => (c =? CR) = false) (file_text ls).
Proof.
  induction 1 as [|l ls [_ Hl] _ [IH1 IH2]].
  - split; constructor.
  - rewrite file_text_cons. split; apply Forall_app; split;
      try (constructor; [reflexivity|assumption]);
      (eapply Forall_impl; [exact Hl|]); intros c Hc;
      apply visible_plain in Hc; tauto.
Qed.

Lemma lstrip_line (l rest : str) : is_line l -> lstrip (l ++ rest) = l ++ rest.
Proof.
  intros [Hne Hl]. destruct l as [|c l]; [congruence|].
  cbn [app lstrip]. apply Forall_cons in Hl as [Hc _].
  apply visible_plain in Hc as (_ & _ & -> & _). reflexivity.
Qed.

Lemma rstrip_visible (l rest : str) :
  Forall (fun c => visible c = true) l -> rstrip (l ++ rest) = l ++ rstrip rest.
Proof.
  induction 1 as [|c l Hc _ IH]; [reflexivity|].
  cbn [app rstrip]. rewrite IH.
  apply visible_plain in Hc as (_ & _ & -> & _).
  now destruct (l ++ rstrip rest).
Qed.

Lemma join_lines_nonempty (l : str) (ls : list str) :
  l <> [] -> join_lines (l :: ls) <> [].
Proof.
  intros Hl. destruct ls; cbn [join_lines]; [exact Hl|].
  destruct l; [congruence|discriminate].
Qed.

Lemma rstrip_file_text (ls : list str) :
  Forall is_line ls -> rstrip (file_text ls) = join_lines ls.
Proof.
  induction 1 as [|l ls [Hne Hl] Hls IH]; [reflexivity|].
  rewrite file_text_cons, (rstrip_visible _ _ Hl). cbn [rstrip].
  rewrite IH. destruct ls as [|l2 ls].
  - cbn [join_lines]. change (isspace LF) with true. cbn iota.
    now rewrite app_nil_r.
  - apply Forall_cons in Hls as [[Hne2 _] _].
    pose proof (join_lines_nonempty l2 ls Hne2) as Hj.
    change (join_lines (l :: l2 :: ls))
      with (l ++ LF :: join_lines (l2 :: ls)).
    destruct (join_lines (l2 :: ls)); [congruence|reflexivity].
Qed.

Lemma splitlines_join_lines (ls : list str) :
  Forall is_line ls -> splitlines (join_lines ls) = ls.
Proof.
  assert (Hplain : forall l, is_line l ->
            Forall (fun c => (c =? CR) = false /\ is_linebreak c = false) l).
  { intros l [_ Hl]. eapply Forall_impl; [exact Hl|].
    intros c Hc. apply visible_plain in Hc. tauto. }
  unfold splitlines.
  induction 1 as [|l ls Hl Hls IH]; [reflexivity|].
  destruct ls as [|l2 ls].
  - cbn [join_lines]. rewrite <- (app_nil_r l) at 1.
    rewrite (splitlines_from_plain _ _ _ (Hplain l Hl)), app_nil_r.
    cbn [splitlines_from]. destruct Hl as [Hne _].
    destruct (rev l) eqn:E.
    + apply (f_equal (@rev N)) in E. rewrite rev_involutive in E.
      now subst l.
    + now rewrite <- E, rev_involutive.
  - change (join_lines (l :: l2 :: ls))
      with (l ++ LF :: join_lines (l2 :: ls)).
    rewrite (splitlines_from_plain _ _ _ (Hplain l Hl)), app_nil_r.
    rewrite splitlines_from_LF, rev_involutive. f_equal. exact IH.
Qed.

Lemma open_r_Ok (path : string) (fs : filesystem) (f : positive)
    (content : bytes) :
  path_file fs path = Some f -> contents fs !! f = Some content ->
  open_r path fs = Ok content.
Proof. intros Hp Hf. unfold open_r. now rewrite Hp, Hf. Qed.

(** What [read_eta_file] hands to [decode_eta]. *)
Lemma read_eta_file_decode (path : string) (fs : filesystem) (f : positive)
    (lines : list str) :
  Forall is_line lines ->
  path_file fs path = Some f ->
  contents fs !! f = Some (map byte_of_N (file_text lines)) ->
  read_eta_file path fs = decode_eta (concat (List.filter not_sentinel lines)).
Proof.
  intros Hlines Hp Hfile. unfold read_eta_file.
  rewrite (open_r_Ok _ _ _ _ Hp Hfile). cbn [bind].
  destruct (file_text_plain lines Hlines) as [Ha Hcr].
  rewrite (bytes_decode_of_N _ Ha). cbn [bind].
  rewrite (universal_newlines_id _ Hcr). unfold strip.
  assert (Hl : lstrip (file_text lines) = file_text lines).
  { destruct Hlines as [|l ls Hl _]; [reflexivity|].
    rewrite file_text_cons. now apply lstrip_line. }
  rewrite Hl, (rstrip_file_text _ Hlines), (splitlines_join_lines _ Hlines).
  reflexivity.
Qed.

Lemma concat_filter_nil (lines : list str) :
  Forall is_line lines ->
  concat (List.filter not_sentinel lines) = []
  <-> forallb (fun l => negb (not_sentinel l)) lines = true.
Proof.
  induction 1 as [|l ls [Hne _] _ IH]; cbn [List.filter forallb concat];
    [tauto|].
  destruct (not_sentinel l); cbn [negb andb concat]; [|exact IH].
  split; [|discriminate]. intros H. apply app_eq_nil in H as [H _].
  congruence.
Qed.

Lemma concat_filter_ascii (lines : list str) :
  Forall is_line lines -> is_ascii (concat (List.filter not_sentinel lines)).
Proof.
  induction 1 as [|l ls [_ Hl] _ IH]; cbn [List.filter concat];
    [constructor|].
  destruct (not_sentinel l); cbn [concat]; [|exact IH].
  apply Forall_app. split; [|exact IH].
  eapply Forall_impl; [exact Hl|]. intros c Hc.
  apply visible_plain in Hc. tauto.
Qed.



(** X16: [write_eta_file] raises what [encode_datetime] raises, and it does
    so before the file is opened: the file system is left as it was, no
    file is created and none is emptied. *)
Theorem write_eta_file_effect (path : string) (x : TimeValue)
    (fs : filesystem) :
  exists e, encode_datetime x = Raise e
            /\ (e = AttributeError \/ e = UnicodeEncodeError)
            /\ write_eta_file path x fs = (Raise e, fs).
Proof.
  destruct (encode_datetime_outcome x) as [H|H]; eexists;
    (split; [exact H|]); (split; [auto|]);
    apply write_eta_file_Raise, H.
Qed.

(** X18: reading a file of lines always raises, and the lines decide how:
    [TypeError] when every line is a sentinel (an empty file included),
    [KeyError] as soon as one line is not. *)
Theorem read_eta_file_raises (path : string) (fs : filesystem) (f : positive)
    (lines : list str) :
  Forall is_line lines ->
  path_file fs path = Some f ->
  contents fs !! f = Some (map byte_of_N (file_text lines)) ->
  read_eta_file path fs
  = Raise (if forallb (fun l => negb (not_sentinel l)) lines
           then TypeError else KeyError).
Proof.
  intros Hlines Hp Hfile.
  rewrite (read_eta_file_decode _ _ _ _ Hlines Hp Hfile).
  pose proof (concat_filter_nil lines Hlines) as Hnil.
  destruct (forallb (fun l => negb (not_sentinel l)) lines).
  - rewrite (proj2 Hnil eq_refl). apply decode_eta_nil.
  - eapply decode_eta_encodable.
    + intros H. apply Hnil in H. discriminate.
    + apply str_encode_ascii, concat_filter_ascii, Hlines.
Qed.

Lemma read_eta_file_raises_witness :
  read_eta_file "only.eta"
    {| path_file := fun _ => Some 1%positive;
       contents :=
         {[ 1%positive := map byte_of_N (file_text [BEGIN_ETA; END_ETA]) ]} |}
  = Raise (if forallb (fun l => negb (not_sentinel l)) [BEGIN_ETA; END_ETA]
           then TypeError else KeyError).
Proof.
  apply (read_eta_file_raises "only.eta" _ 1%positive [BEGIN_ETA; END_ETA]).
  - apply (Forall_checked _ (fun l => negb (bool_decide (l = []))
                                      && forallb visible l)).
    + intros l [H1 H2]%andb_true_iff. split.
      * apply negb_true_iff, bool_decide_eq_false in H1. exact H1.
      * apply (Forall_checked _ visible); auto.
    + vm_compute. reflexivity.
  - reflexivity.
  - apply lookup_singleton_eq.
Defined.
